(** * The driver store of VCDOS (src/stores/driverStore.ts)

    A shallow embedding of the zustand store that keeps the driver
    records of the fleet-management interface, and the properties of its
    operations.

    The store is a JavaScript object [{drivers, loading, error}] that is
    replaced by a merged copy at every [set].  The operations are [async]
    functions without any [await]: their bodies run to completion before
    the promise is handed back, so each one is a state transformer that
    either returns a value (the promise resolves) or throws (the promise
    rejects).  The two ambient sources they read, [new Date()] and
    [Math.random()], are oracles indexed by the number of reads so far. *)

From Stdlib Require Import QArith.
From stdpp Require Import gmap strings list fin_maps.

Local Open Scope string_scope.
Local Open Scope list_scope.

(** ** Data model *)

(** Modelled from the spec: the declarations of [../types/vendor] are not
    part of the sources.  The shapes below are the ones the store and its
    seed record use.  The status unions are string literals at run time;
    a field of a document is [None] when the key is absent from the
    object (or holds [undefined]). *)
Record DriverDocument := mkDocument {
  doc_id : option string;
  doc_type : option string;
  doc_number : option string;
  doc_expiryDate : option string;
  doc_issuedDate : option string;
  doc_status : option string;
  doc_fileUrl : option string;
  doc_comments : option string
}.

(** [Omit<DriverDocument, 'id'>]: what [uploadDocument] receives. *)
Record DocumentDraft := mkDraft {
  dd_type : string;
  dd_number : string;
  dd_expiryDate : string;
  dd_issuedDate : string;
  dd_status : string;
  dd_fileUrl : string;
  dd_comments : option string
}.

(** JavaScript numbers are only copied by the store, never computed
    with; rationals are enough to write the seed's rating 4.8. *)
Record DriverMetadata := mkMetadata {
  totalTrips : Q;
  rating : Q;
  lastActive : option string;
  completedVerification : bool
}.

Record Driver := mkDriver {
  id : string;
  name : string;
  phone : string;
  email : string;
  licenseNumber : string;
  vendorId : string;
  status : string;
  onboardingStatus : string;
  vehicleId : option string;
  documents : gmap string DriverDocument;
  createdAt : string;
  updatedAt : string;
  metadata : DriverMetadata
}.

(** [Omit<Driver, 'id' | 'createdAt' | 'updatedAt' | 'status' |
    'onboardingStatus'>]: the argument of [addDriver]. *)
Record DriverData := mkDriverData {
  dd_name : string;
  dd_phone : string;
  dd_email : string;
  dd_licenseNumber : string;
  dd_vendorId : string;
  dd_vehicleId : option string;
  dd_documents : gmap string DriverDocument;
  dd_metadata : DriverMetadata
}.

(** [Partial<Driver>]: the argument of [updateDriver].  [None] is a key
    that the object does not have. *)
Record DriverUpdates := mkUpdates {
  u_id : option string;
  u_name : option string;
  u_phone : option string;
  u_email : option string;
  u_licenseNumber : option string;
  u_vendorId : option string;
  u_status : option string;
  u_onboardingStatus : option string;
  u_vehicleId : option (option string);
  u_documents : option (gmap string DriverDocument);
  u_createdAt : option string;
  u_updatedAt : option string;
  u_metadata : option DriverMetadata
}.

Definition no_updates : DriverUpdates :=
  mkUpdates None None None None None None None None None None None None None.

(** The object literal [{name: X}]. *)
Definition name_update (x : string) : DriverUpdates :=
  mkUpdates None (Some x) None None None None None None None None None None None.


(** The observable state of the store. *)
Record DriverStore := mkStore {
  drivers : list Driver;
  loading : bool;
  error : option string
}.

Definition johnDoe : Driver :=
    {| id := "1";
       name := "John Doe";
       phone := "+1234567890";
       email := "john@example.com";
       licenseNumber := "DL123456";
       vendorId := "2";
       status := "active";
       onboardingStatus := "completed";
       vehicleId := None;
       documents :=
         <["license" :=
             mkDocument (Some "doc1") (Some "license") (Some "DL123456")
               (Some "2025-12-31") (Some "2020-01-01") (Some "verified")
               (Some "https://example.com/license.pdf") None]>
         (<["permit" :=
             mkDocument (Some "doc2") (Some "permit") (Some "P123")
               (Some "2024-12-31") (Some "2023-01-01") (Some "verified")
               (Some "https://example.com/permit.pdf") None]> ∅);
       createdAt := "2024-03-15T00:00:00Z";
       updatedAt := "2024-03-15T00:00:00Z";
       metadata :=
         mkMetadata (150 # 1) (48 # 10) (Some "2024-03-15T12:00:00Z") true |}.

Definition initialDrivers : list Driver := [johnDoe].

Definition initialStore : DriverStore :=
  {| drivers := initialDrivers; loading := false; error := None |}.

(** ** Object spreads *)

(** [{...driver, ...updates, updatedAt: now}] *)
Definition spread_updates (driver : Driver) (updates : DriverUpdates)
    (now : string) : Driver :=
  {| id := default (id driver) (u_id updates);
     name := default (name driver) (u_name updates);
     phone := default (phone driver) (u_phone updates);
     email := default (email driver) (u_email updates);
     licenseNumber := default (licenseNumber driver) (u_licenseNumber updates);
     vendorId := default (vendorId driver) (u_vendorId updates);
     status := default (status driver) (u_status updates);
     onboardingStatus :=
       default (onboardingStatus driver) (u_onboardingStatus updates);
     vehicleId := default (vehicleId driver) (u_vehicleId updates);
     documents := default (documents driver) (u_documents updates);
     createdAt := default (createdAt driver) (u_createdAt updates);
     updatedAt := now;
     metadata := default (metadata driver) (u_metadata updates) |}.

(** [{...document, id: documentId, status: 'pending'}] *)
Definition pending_document (document : DocumentDraft) (documentId : string)
    : DriverDocument :=
  {| doc_id := Some documentId;
     doc_type := Some (dd_type document);
     doc_number := Some (dd_number document);
     doc_expiryDate := Some (dd_expiryDate document);
     doc_issuedDate := Some (dd_issuedDate document);
     doc_status := Some "pending";
     doc_fileUrl := Some (dd_fileUrl document);
     doc_comments := dd_comments document |}.

(** [{...driver, documents: {...driver.documents, [key]: doc}, updatedAt: now}] *)
Definition with_document (driver : Driver) (key : string)
    (doc : DriverDocument) (now : string) : Driver :=
  {| id := id driver; name := name driver; phone := phone driver;
     email := email driver; licenseNumber := licenseNumber driver;
     vendorId := vendorId driver; status := status driver;
     onboardingStatus := onboardingStatus driver;
     vehicleId := vehicleId driver;
     documents := <[key := doc]> (documents driver);
     createdAt := createdAt driver;
     updatedAt := now;
     metadata := metadata driver |}.

(** [{...d.documents[documentId], status, comments}]: the spread of
    [undefined] contributes no key. *)
Definition overlay_verdict (old : option DriverDocument) (st : string)
    (comments : option string) : DriverDocument :=
  match old with
  | Some doc =>
      {| doc_id := doc_id doc; doc_type := doc_type doc;
         doc_number := doc_number doc; doc_expiryDate := doc_expiryDate doc;
         doc_issuedDate := doc_issuedDate doc; doc_status := Some st;
         doc_fileUrl := doc_fileUrl doc; doc_comments := comments |}
  | None =>
      {| doc_id := None; doc_type := None; doc_number := None;
         doc_expiryDate := None; doc_issuedDate := None;
         doc_status := Some st; doc_fileUrl := None;
         doc_comments := comments |}
  end.

(** [{...d, documents: {...d.documents, [documentId]: {...}}}] *)
Definition with_verdict (d : Driver) (documentId st : string)
    (comments : option string) : Driver :=
  {| id := id d; name := name d; phone := phone d; email := email d;
     licenseNumber := licenseNumber d; vendorId := vendorId d;
     status := status d; onboardingStatus := onboardingStatus d;
     vehicleId := vehicleId d;
     documents :=
       <[documentId := overlay_verdict (documents d !! documentId) st comments]>
         (documents d);
     createdAt := createdAt d; updatedAt := updatedAt d;
     metadata := metadata d |}.

(** [{...d, vehicleId}] and [{...d, vehicleId: undefined}] *)
Definition with_vehicleId (d : Driver) (v : option string) : Driver :=
  {| id := id d; name := name d; phone := phone d; email := email d;
     licenseNumber := licenseNumber d; vendorId := vendorId d;
     status := status d; onboardingStatus := onboardingStatus d;
     vehicleId := v;
     documents := documents d;
     createdAt := createdAt d; updatedAt := updatedAt d;
     metadata := metadata d |}.

(** [{...d, onboardingStatus: status}] *)
Definition with_onboardingStatus (d : Driver) (st : string) : Driver :=
  {| id := id d; name := name d; phone := phone d; email := email d;
     licenseNumber := licenseNumber d; vendorId := vendorId d;
     status := status d; onboardingStatus := st;
     vehicleId := vehicleId d;
     documents := documents d;
     createdAt := createdAt d; updatedAt := updatedAt d;
     metadata := metadata d |}.

(** ** Effects: the store, the ambient oracles, and exceptions *)

(** What an operation runs against: the current store object, how often
    the clock and the random source have been read, and the snapshots
    that [set] has published to the subscribers, oldest first. *)
Record World := mkWorld {
  store : DriverStore;
  dates : nat;
  randoms : nat;
  published : list DriverStore
}.

(** A run either returns a value or throws an [Error] with a message. *)
Inductive outcome (A : Type) : Type :=
  | Returned (a : A)
  | Thrown (message : string).
Arguments Returned {A} a.
Arguments Thrown {A} message.

Definition Op (A : Type) : Type := World -> outcome A * World.

Definition ret {A} (a : A) : Op A := fun w => (Returned a, w).

Definition bind {A B} (m : Op A) (k : A -> Op B) : Op B :=
  fun w =>
    match m w with
    | (Returned a, w') => k a w'
    | (Thrown e, w') => (Thrown e, w')
    end.

(** [throw new Error(message)] *)
Definition throw {A} (message : string) : Op A := fun w => (Thrown message, w).

(** [try { body } catch (error) { handler }] *)
Definition try_catch {A} (body : Op A) (handler : string -> Op A) : Op A :=
  fun w =>
    match body w with
    | (Returned a, w') => (Returned a, w')
    | (Thrown e, w') => handler e w'
    end.

(** The operations are written with the monad notation of stdpp,
    [x ← m; k] and [m;; k]. *)
#[global] Instance op_ret : MRet Op := @ret.
#[global] Instance op_bind : MBind Op := fun A B k m => bind m k.

(** An object as an operation receives it from its caller.  A property
    of a JavaScript object is a value or an accessor, and an accessor
    may throw when it is read: [Plain] is an object whose properties
    are all read without an exception, [Throwing] one of which the
    first accessor that the operation reads throws the error with the
    given message. *)
Inductive received (A : Type) : Type :=
  | Plain (data : A)
  | Throwing (message : string).
Arguments Plain {A} data.
Arguments Throwing {A} message.

(** Reading the properties of a received object: a spread [...o], or a
    property access [o.key]. *)
Definition read {A} (o : received A) : Op A :=
  fun w =>
    match o with
    | Plain data => (Returned data, w)
    | Throwing message => (Thrown message, w)
    end.

(** [get()] *)
Definition get : Op DriverStore := fun w => (Returned (store w), w).

(** [set(partial)]: the store becomes the merged object, which is
    published to the subscribers.  [merge] is the old state with the keys
    of the partial written over it.  The subscribers are components
    outside the store; they are taken to return. *)
Definition publish (s : DriverStore) (w : World) : World :=
  {| store := s; dates := dates w; randoms := randoms w;
     published := published w ++ [s] |}.

Definition set (merge : DriverStore -> DriverStore) : Op unit :=
  fun w => (Returned tt, publish (merge (store w)) w).

(** The partial objects that the operations pass to [set]. *)
Definition set_loading (b : bool) (s : DriverStore) : DriverStore :=
  {| drivers := drivers s; loading := b; error := error s |}.

Definition set_drivers_loading (ds : list Driver) (b : bool)
    (s : DriverStore) : DriverStore :=
  {| drivers := ds; loading := b; error := error s |}.

Definition set_error_loading (e : string) (b : bool)
    (s : DriverStore) : DriverStore :=
  {| drivers := drivers s; loading := b; error := Some e |}.

Definition set_drivers (ds : list Driver) (s : DriverStore) : DriverStore :=
  {| drivers := ds; loading := loading s; error := error s |}.

Section Store.

(** [clock k] is the ISO string of the [k]-th [new Date()] of the run,
    [random_id k] the string [Math.random().toString(36).substr(2, 9)]
    of the [k]-th [Math.random()]. *)
Variable clock : nat -> string.
Variable random_id : nat -> string.

(** [new Date().toISOString()] *)
Definition date_now : Op string :=
  fun w =>
    (Returned (clock (dates w)),
     {| store := store w; dates := S (dates w); randoms := randoms w;
        published := published w |}).

(** [Math.random().toString(36).substr(2, 9)] *)
Definition math_random_id : Op string :=
  fun w =>
    (Returned (random_id (randoms w)),
     {| store := store w; dates := dates w; randoms := S (randoms w);
        published := published w |}).

(** [array.map(callback)] with a callback that has effects: the elements
    are visited from left to right. *)
Fixpoint map_op {A B} (callback : A -> Op B) (l : list A) : Op (list B) :=
  match l with
  | [] => ret []
  | x :: rest =>
      y ← callback x;
      ys ← map_op callback rest;
      ret (y :: ys)
  end.

(** ** The operations *)

(** The [try] block and the [catch] clause of [addDriver]. *)
Definition addDriver_try (driverData : received DriverData) : Op Driver :=
  driverData ← read driverData;
  newId ← math_random_id;
  created ← date_now;
  updated ← date_now;
  let newDriver :=
    {| id := newId;
       name := dd_name driverData;
       phone := dd_phone driverData;
       email := dd_email driverData;
       licenseNumber := dd_licenseNumber driverData;
       vendorId := dd_vendorId driverData;
       status := "inactive";
       onboardingStatus := "pending";
       vehicleId := dd_vehicleId driverData;
       documents := ∅;
       createdAt := created;
       updatedAt := updated;
       metadata := mkMetadata 0 0 None false |} in
  set (fun state =>
         set_drivers_loading (drivers state ++ [newDriver]) false state);;
  ret newDriver.

Definition addDriver_catch (e : string) : Op Driver :=
  set (set_error_loading "Failed to add driver" false);;
  throw e.

Definition addDriver (driverData : received DriverData) : Op Driver :=
  set (set_loading true);;
  try_catch (addDriver_try driverData) addDriver_catch.

(** The callback of [state.drivers.map] in [updateDriver].  It assigns
    the local variable [updatedDriver] of the enclosing function, which
    is threaded through as [updatedDriver]: the component of the result
    is the variable after the visit. *)
Fixpoint update_each (id0 : string) (updates : DriverUpdates)
    (l : list Driver) (updatedDriver : option Driver)
    : Op (list Driver * option Driver) :=
  match l with
  | [] => ret ([], updatedDriver)
  | driver :: rest =>
      if String.eqb (id driver) id0 then
        now ← date_now;
        let updated := spread_updates driver updates now in
        r ← update_each id0 updates rest (Some updated);
        ret (updated :: fst r, snd r)
      else
        r ← update_each id0 updates rest updatedDriver;
        ret (driver :: fst r, snd r)
  end.

(** The [try] block and the [catch] clause of [updateDriver]. *)
Definition updateDriver_try (id0 : string) (updates : DriverUpdates)
    : Op Driver :=
  state ← get;
  r ← update_each id0 updates (drivers state) None;
  set (set_drivers_loading (fst r) false);;
  match snd r with
  | None => throw "Driver not found"
  | Some updatedDriver => ret updatedDriver
  end.

Definition updateDriver_catch (e : string) : Op Driver :=
  set (set_error_loading "Failed to update driver" false);;
  throw e.

Definition updateDriver (id0 : string) (updates : DriverUpdates) : Op Driver :=
  set (set_loading true);;
  try_catch (updateDriver_try id0 updates) updateDriver_catch.

(** The callback of [state.drivers.map] in [uploadDocument].  The
    draft is read, [document.type] first, for every record with the
    identifier, before the clock is. *)
Definition upload_one (driverId : string) (document : received DocumentDraft)
    (documentId : string) (driver : Driver) : Op Driver :=
  if String.eqb (id driver) driverId then
    document ← read document;
    now ← date_now;
    ret (with_document driver (dd_type document)
           (pending_document document documentId) now)
  else ret driver.

(** The [try] block and the [catch] clause of [uploadDocument]. *)
Definition uploadDocument_try (driverId : string)
    (document : received DocumentDraft) : Op unit :=
  documentId ← math_random_id;
  state ← get;
  ds ← map_op (upload_one driverId document documentId) (drivers state);
  set (set_drivers_loading ds false).

Definition uploadDocument_catch (e : string) : Op unit :=
  set (set_error_loading "Failed to upload document" false);;
  throw e.

Definition uploadDocument (driverId : string)
    (document : received DocumentDraft) : Op unit :=
  set (set_loading true);;
  try_catch (uploadDocument_try driverId document) uploadDocument_catch.

Definition deleteDriver (id0 : string) : Op unit :=
  set (fun state =>
         set_drivers (filter (fun d => id d ≠ id0) (drivers state)) state).

Definition getDriver (id0 : string) : Op (option Driver) :=
  state ← get;
  ret (find (fun d => String.eqb (id d) id0) (drivers state)).

Definition verifyDocument (driverId documentId st : string)
    (comments : option string) : Op unit :=
  set (fun state =>
         set_drivers
           (map (fun d =>
                   if String.eqb (id d) driverId then with_verdict d documentId st comments else d)
                (drivers state))
           state).

Definition assignVehicle (driverId vehicleId0 : string) : Op unit :=
  set (fun state =>
         set_drivers
           (map (fun d =>
                   if String.eqb (id d) driverId then with_vehicleId d (Some vehicleId0) else d)
                (drivers state))
           state).

Definition unassignVehicle (driverId : string) : Op unit :=
  set (fun state =>
         set_drivers
           (map (fun d =>
                   if String.eqb (id d) driverId then with_vehicleId d None else d)
                (drivers state))
           state).

Definition updateOnboardingStatus (driverId st : string) : Op unit :=
  set (fun state =>
         set_drivers
           (map (fun d =>
                   if String.eqb (id d) driverId then with_onboardingStatus d st else d)
                (drivers state))
           state).

Definition getDriversByVendor (vendorId0 : string) : Op (list Driver) :=
  state ← get;
  ret (filter (fun driver => vendorId driver = vendorId0) (drivers state)).

Definition getActiveDrivers : Op (list Driver) :=
  state ← get;
  ret (filter (fun driver => status driver = "active") (drivers state)).

(** [Object.values(driver.documents).some(doc => doc.status === 'pending')] *)
Definition some_pending (docs : gmap string DriverDocument) : bool :=
  existsb (fun doc => bool_decide (doc_status doc = Some "pending"))
          (snd <$> map_to_list docs).

Definition getPendingVerifications : Op (list Driver) :=
  state ← get;
  ret (filter (fun driver => some_pending (documents driver) = true)
              (drivers state)).

End Store.

(** ** Spec-side vocabulary *)

(** The record [d] with nothing but its name and last-update time
    replaced. *)
Definition renamed (d : Driver) (x t : string) : Driver :=
  {| id := id d; name := x; phone := phone d; email := email d;
     licenseNumber := licenseNumber d; vendorId := vendorId d;
     status := status d; onboardingStatus := onboardingStatus d;
     vehicleId := vehicleId d; documents := documents d;
     createdAt := createdAt d; updatedAt := t; metadata := metadata d |}.

(** A document of which only the verdict is known. *)
Definition bare_verdict (st : string) (comments : option string)
    : DriverDocument :=
  mkDocument None None None None None (Some st) None comments.

(** The snapshots that a run from [w] to [w'] has published. *)
Definition published_since (w w' : World) (l : list DriverStore) : Prop :=
  published w' = published w ++ l.

(** The request-status pattern: the run publishes a snapshot with the
    loading flag raised before any other, ends with the flag lowered,
    and a run that returns leaves no error message behind. *)
Definition request_status_pattern {A} (op : Op A) : Prop :=
  ∀ w, ∃ first rest,
    published_since w (snd (op w)) (first :: rest) ∧
    loading first = true ∧
    loading (store (snd (op w))) = false ∧
    (∀ a, fst (op w) = Returned a → error (store (snd (op w))) = None).

(** What the three operations that follow the pattern do with the
    error field: a run that returns leaves it as it was, a run that
    throws leaves the operation's message in it. *)
Definition request_status_kept {A} (message : string) (op : Op A) : Prop :=
  ∀ w, ∃ first rest,
    published_since w (snd (op w)) (first :: rest) ∧
    loading first = true ∧
    loading (store (snd (op w))) = false ∧
    (∀ a, fst (op w) = Returned a →
          error (store (snd (op w))) = error (store w)) ∧
    (∀ e, fst (op w) = Thrown e →
          error (store (snd (op w))) = Some message).

(** Some document of the driver is pending. *)
Definition has_pending (d : Driver) : Prop :=
  map_Exists (fun _ doc => doc_status doc = Some "pending") (documents d).

(** The world after [n] more readings of the clock. *)
Definition tick (n : nat) (w : World) : World :=
  {| store := store w; dates := n + dates w; randoms := randoms w;
     published := published w |}.

(** ** Worlds used in the examples *)

Definition initialWorld : World :=
  {| store := initialStore; dates := 0; randoms := 0; published := [] |}.

(** A clock that stands still at noon, and a random source that yields
    0.5 every time, which prints as [0.i] in base 36. *)
Definition noon (_ : nat) : string := "2024-03-16T12:00:00.000Z".
Definition always_half (_ : nat) : string := "i".

Definition jane : DriverData :=
  {| dd_name := "Jane Roe"; dd_phone := "+1987654321";
     dd_email := "jane@example.com"; dd_licenseNumber := "DL654321";
     dd_vendorId := "2"; dd_vehicleId := None; dd_documents := ∅;
     dd_metadata := mkMetadata 0 0 None false |}.

Definition license_draft : DocumentDraft :=
  {| dd_type := "license"; dd_number := "DL999"; dd_expiryDate := "2030-01-01";
     dd_issuedDate := "2024-01-01"; dd_status := "verified";
     dd_fileUrl := "https://example.com/new.pdf"; dd_comments := None |}.

(** ** What a run does to a record *)

Section Relations.

Variable clock : nat -> string.
Variable random_id : nat -> string.

(** The record that [addDriver] builds in the world [w]. *)
Definition created_driver (driverData : DriverData) (w : World) : Driver :=
  {| id := random_id (randoms w);
     name := dd_name driverData;
     phone := dd_phone driverData;
     email := dd_email driverData;
     licenseNumber := dd_licenseNumber driverData;
     vendorId := dd_vendorId driverData;
     status := "inactive";
     onboardingStatus := "pending";
     vehicleId := dd_vehicleId driverData;
     documents := ∅;
     createdAt := clock (dates w);
     updatedAt := clock (S (dates w));
     metadata := mkMetadata 0 0 None false |}.

(** What [update_each] does to one record, the clock having been read
    between [lo] and [hi]. *)
Definition updated_between (id0 : string) (updates : DriverUpdates)
    (lo hi : nat) (d d' : Driver) : Prop :=
  if String.eqb (id d) id0
  then ∃ k, (lo ≤ k < hi)%nat ∧ d' = spread_updates d updates (clock k)
  else d' = d.

(** What [upload_one] does to one record. *)
Definition uploaded_between (driverId : string) (document : DocumentDraft)
    (documentId : string) (lo hi : nat) (d d' : Driver) : Prop :=
  if String.eqb (id d) driverId
  then ∃ k, (lo ≤ k < hi)%nat ∧
            d' = with_document d (dd_type document)
                   (pending_document document documentId) (clock k)
  else d' = d.

End Relations.

(** ** Sequences of calls *)

(** A call of one of the mutating operations, as a view issues it. *)
Inductive Call : Type :=
  | AddDriver (driverData : received DriverData)
  | UpdateDriver (id0 : string) (updates : DriverUpdates)
  | UploadDocument (driverId : string) (document : received DocumentDraft)
  | DeleteDriver (id0 : string)
  | VerifyDocument (driverId documentId st : string) (comments : option string)
  | AssignVehicle (driverId vehicleId0 : string)
  | UnassignVehicle (driverId : string)
  | UpdateOnboardingStatus (driverId st : string).

Section Calls.

Variable clock : nat -> string.
Variable random_id : nat -> string.

(** The world after a call, whether its promise resolves or rejects. *)
Definition after_call (c : Call) (w : World) : World :=
  match c with
  | AddDriver driverData => snd (addDriver clock random_id driverData w)
  | UpdateDriver id0 updates => snd (updateDriver clock id0 updates w)
  | UploadDocument driverId document =>
      snd (uploadDocument clock random_id driverId document w)
  | DeleteDriver id0 => snd (deleteDriver id0 w)
  | VerifyDocument driverId documentId st comments =>
      snd (verifyDocument driverId documentId st comments w)
  | AssignVehicle driverId vehicleId0 =>
      snd (assignVehicle driverId vehicleId0 w)
  | UnassignVehicle driverId => snd (unassignVehicle driverId w)
  | UpdateOnboardingStatus driverId st =>
      snd (updateOnboardingStatus driverId st w)
  end.

(** The world after the calls of [cs], issued one after the other. *)
Definition after_calls (cs : list Call) (w : World) : World :=
  fold_left (fun w c => after_call c w) cs w.

End Calls.

(** ** Running the operations *)

Section Runs.

Variable clock : nat -> string.
Variable random_id : nat -> string.

Lemma tick_0 w : tick 0 w = w.
Proof. by destruct w. Qed.

Lemma tick_S n w : tick n (tick 1 w) = tick (S n) w.
Proof. unfold tick; simpl. f_equal. lia. Qed.

Lemma addDriver_try_run driverData w :
  addDriver_try clock random_id (Plain driverData) w =
  (Returned (created_driver clock random_id driverData w),
   {| store := set_drivers_loading
                 (drivers (store w) ++ [created_driver clock random_id driverData w]) false
                 (store w);
      dates := S (S (dates w));
      randoms := S (randoms w);
      published :=
        published w ++
        [set_drivers_loading
           (drivers (store w) ++ [created_driver clock random_id driverData w]) false
           (store w)] |}).
Proof. reflexivity. Qed.

Lemma addDriver_run driverData w :
  addDriver clock random_id (Plain driverData) w =
  (Returned (created_driver clock random_id driverData w),
   {| store := set_drivers_loading
                 (drivers (store w) ++ [created_driver clock random_id driverData w]) false
                 (store w);
      dates := S (S (dates w));
      randoms := S (randoms w);
      published :=
        (published w ++ [set_loading true (store w)]) ++
        [set_drivers_loading
           (drivers (store w) ++ [created_driver clock random_id driverData w]) false
           (store w)] |}).
Proof. reflexivity. Qed.

Lemma updated_between_mono id0 updates (lo hi lo' hi' : nat) d d' :
  (lo' ≤ lo)%nat → (hi ≤ hi')%nat →
  updated_between clock id0 updates lo hi d d' →
  updated_between clock id0 updates lo' hi' d d'.
Proof.
  unfold updated_between. intros Hlo Hhi.
  destruct (String.eqb (id d) id0); [|done].
  intros (k & Hk & ->). exists k. split; [lia|done].
Qed.

(** [update_each] never throws.  It reads the clock once per record
    with the identifier, rewrites those records in place, and leaves in
    the variable the rewritten copy of the last of them. *)
Lemma update_each_run id0 updates l :
  ∀ upd w, ∃ l' upd' n,
    update_each clock id0 updates l upd w = (Returned (l', upd'), tick n w) ∧
    Forall2 (updated_between clock id0 updates (dates w) (n + dates w)) l l' ∧
    (Forall (fun d => id d ≠ id0) l → upd' = upd ∧ n = 0) ∧
    (Exists (fun d => id d = id0) l →
       ∃ i d r, l !! i = Some d ∧ id d = id0 ∧ l' !! i = Some r ∧
                upd' = Some r).
Proof.
  induction l as [|driver rest IH]; intros upd w.
  - exists [], upd, 0. rewrite tick_0. repeat split; auto.
    intros H; inversion H.
  - simpl. destruct (String.eqb_spec (id driver) id0) as [Heq|Hne].
    + destruct (IH (Some (spread_updates driver updates (clock (dates w))))
                  (tick 1 w)) as (l' & upd' & n & Hrun & Hall & Hnone & Hsome).
      exists (spread_updates driver updates (clock (dates w)) :: l'), upd', (S n).
      split; [|split; [|split]].
      * unfold mbind, op_bind, bind, date_now in *. simpl.
        change {| store := store w; dates := S (dates w);
                  randoms := randoms w; published := published w |}
          with (tick 1 w).
        rewrite Hrun. simpl. by rewrite tick_S.
      * constructor.
        -- unfold updated_between. rewrite Heq, String.eqb_refl.
           exists (dates w). split; [lia|done].
        -- eapply Forall2_impl; [exact Hall|].
           intros d d'. apply updated_between_mono; simpl; lia.
      * intros HF. inversion HF; subst. congruence.
      * intros _.
        destruct (decide (Exists (fun d => id d = id0) rest)) as [HE|HE].
        -- destruct (Hsome HE) as (i & d & r & Hi & Hd & Hi' & Hr).
           exists (S i), d, r. by repeat split.
        -- apply not_Exists_Forall in HE; [|intros ?; apply _].
           destruct (Hnone HE) as [-> _].
           exists 0, driver, (spread_updates driver updates (clock (dates w))).
           by repeat split.
    + destruct (IH upd w) as (l' & upd' & n & Hrun & Hall & Hnone & Hsome).
      exists (driver :: l'), upd', n.
      split; [|split; [|split]].
      * unfold mbind, op_bind, bind in *. rewrite Hrun. done.
      * constructor; [|done].
        unfold updated_between.
        by destruct (String.eqb_spec (id driver) id0).
      * intros HF. inversion HF; subst. auto.
      * intros HE. inversion HE; subst; [done|].
        destruct (Hsome H0) as (i & d & r & Hi & Hd & Hi' & Hr).
        exists (S i), d, r. by repeat split.
Qed.

Lemma uploaded_between_mono driverId document documentId
    (lo hi lo' hi' : nat) d d' :
  (lo' ≤ lo)%nat → (hi ≤ hi')%nat →
  uploaded_between clock driverId document documentId lo hi d d' →
  uploaded_between clock driverId document documentId lo' hi' d d'.
Proof.
  unfold uploaded_between. intros Hlo Hhi.
  destruct (String.eqb (id d) driverId); [|done].
  intros (k & Hk & ->). exists k. split; [lia|done].
Qed.

Lemma map_op_cons {A B} (callback : A → Op B) x l w :
  map_op callback (x :: l) w =
  match callback x w with
  | (Returned y, w') =>
      match map_op callback l w' with
      | (Returned ys, w'') => (Returned (y :: ys), w'')
      | (Thrown e, w'') => (Thrown e, w'')
      end
  | (Thrown e, w') => (Thrown e, w')
  end.
Proof. reflexivity. Qed.

Lemma upload_one_hit driverId document documentId driver w :
  id driver = driverId →
  upload_one clock driverId (Plain document) documentId driver w =
  (Returned (with_document driver (dd_type document)
               (pending_document document documentId) (clock (dates w))),
   tick 1 w).
Proof. intros H. unfold upload_one. by rewrite H, String.eqb_refl. Qed.

Lemma upload_one_miss driverId document documentId driver w :
  id driver ≠ driverId →
  upload_one clock driverId (Plain document) documentId driver w =
  (Returned driver, w).
Proof.
  intros H. unfold upload_one.
  by destruct (String.eqb_spec (id driver) driverId).
Qed.

(** The [map] of [uploadDocument] never throws and reads the clock once
    per record with the identifier. *)
Lemma upload_each_run driverId document documentId l :
  ∀ w, ∃ l' n,
    map_op (upload_one clock driverId (Plain document) documentId) l w =
      (Returned l', tick n w) ∧
    Forall2 (uploaded_between clock driverId document documentId
               (dates w) (n + dates w)) l l' ∧
    (Forall (fun d => id d ≠ driverId) l → n = 0).
Proof.
  induction l as [|driver rest IH]; intros w.
  - exists [], 0. rewrite tick_0. by repeat split.
  - rewrite map_op_cons.
    destruct (decide (id driver = driverId)) as [Heq|Hne].
    + destruct (IH (tick 1 w)) as (l' & n & Hrun & Hall & _).
      exists (with_document driver (dd_type document)
                (pending_document document documentId) (clock (dates w)) :: l'),
             (S n).
      split; [|split].
      * rewrite upload_one_hit, Hrun, tick_S; done.
      * constructor.
        -- unfold uploaded_between. rewrite Heq, String.eqb_refl.
           exists (dates w). split; [lia|done].
        -- eapply Forall2_impl; [exact Hall|].
           intros d d'. apply uploaded_between_mono; simpl; lia.
      * intros HF. inversion HF; subst. congruence.
    + destruct (IH w) as (l' & n & Hrun & Hall & Hnone).
      exists (driver :: l'), n.
      split; [|split].
      * rewrite upload_one_miss, Hrun; done.
      * constructor; [|done].
        unfold uploaded_between.
        by destruct (String.eqb_spec (id driver) driverId).
      * intros HF. inversion HF; subst. auto.
Qed.

(** A relation that changes no record with another identifier is the
    identity on a list without the identifier. *)
Lemma updated_between_absent id0 updates lo hi l l' :
  Forall (fun d => id d ≠ id0) l →
  Forall2 (updated_between clock id0 updates lo hi) l l' → l' = l.
Proof.
  intros HF H2. induction H2 as [|d d' l l' Hd _ IH]; [done|].
  inversion HF; subst. f_equal; [|by apply IH].
  unfold updated_between in Hd.
  by destruct (String.eqb_spec (id d) id0).
Qed.


(** Reading [array.map(f)] at an index. *)
Lemma lookup_map {A B} (f : A → B) (l : list A) (i : nat) :
  map f l !! i = f <$> (l !! i).
Proof. exact (list_lookup_fmap f l i). Qed.


(** [updateDriver] in terms of what its [map] produced. *)
Lemma updateDriver_run id0 updates w l' upd' n :
  update_each clock id0 updates (drivers (store w)) None
    (publish (set_loading true (store w)) w) =
    (Returned (l', upd'), tick n (publish (set_loading true (store w)) w)) →
  updateDriver clock id0 updates w =
  let w1 := tick n (publish (set_loading true (store w)) w) in
  let w2 := publish (set_drivers_loading l' false (store w1)) w1 in
  match upd' with
  | Some r => (Returned r, w2)
  | None =>
      (Thrown "Driver not found",
       publish (set_error_loading "Failed to update driver" false (store w2)) w2)
  end.
Proof.
  intros Hrun.
  unfold updateDriver, updateDriver_try, try_catch, mbind, op_bind, bind, set, get.
  simpl. simpl in Hrun. rewrite Hrun. simpl.
  by destruct upd'.
Qed.

(** [uploadDocument] in terms of what its [map] produced. *)
Lemma uploadDocument_run driverId document w l' n :
  let w0 := publish (set_loading true (store w)) w in
  let w1 := {| store := store w0; dates := dates w0;
               randoms := S (randoms w0); published := published w0 |} in
  map_op (upload_one clock driverId (Plain document) (random_id (randoms w)))
    (drivers (store w)) w1 = (Returned l', tick n w1) →
  uploadDocument clock random_id driverId (Plain document) w =
  (Returned tt, publish (set_drivers_loading l' false (store w1)) (tick n w1)).
Proof.
  intros w0 w1 Hrun.
  unfold uploadDocument, uploadDocument_try, try_catch, mbind, op_bind, bind,
    set, get, math_random_id.
  simpl. subst w0 w1. simpl in Hrun. rewrite Hrun. done.
Qed.

(** [addDriver] with a draft whose spread throws: the [catch] clause
    runs before anything was drawn or appended. *)
Lemma addDriver_throwing_run message w :
  addDriver clock random_id (Throwing message) w =
  (Thrown message,
   publish
     (set_error_loading "Failed to add driver" false
        (set_loading true (store w)))
     (publish (set_loading true (store w)) w)).
Proof. reflexivity. Qed.

(** The [map] of [uploadDocument] with a draft that throws when it is
    read: the first record with the identifier ends the run. *)
Lemma upload_each_throwing driverId message documentId l w :
  ((∀ d, d ∈ l → id d ≠ driverId) →
   map_op (upload_one clock driverId (Throwing message) documentId) l w =
     (Returned l, w)) ∧
  ((∃ d, d ∈ l ∧ id d = driverId) →
   map_op (upload_one clock driverId (Throwing message) documentId) l w =
     (Thrown message, w)).
Proof.
  induction l as [|driver rest [IHa IHp]].
  - split; [done|]. intros (d & Hd & _). inversion Hd.
  - rewrite map_op_cons. unfold upload_one at 1 3.
    destruct (String.eqb_spec (id driver) driverId) as [Heq|Hne].
    + split; [|done]. intros Habsent.
      destruct (Habsent driver); [constructor|done].
    + unfold mret, op_ret, ret. split.
      * intros Habsent. rewrite IHa; [done|].
        intros d Hd. apply Habsent. by constructor.
      * intros (d & Hd & Hid). rewrite IHp; [done|].
        inversion Hd; subst; [done|eauto].
Qed.

Lemma uploadDocument_throwing_run driverId message w :
  let w0 := publish (set_loading true (store w)) w in
  let w1 := {| store := store w0; dates := dates w0;
               randoms := S (randoms w0); published := published w0 |} in
  ((∀ d, d ∈ drivers (store w) → id d ≠ driverId) →
   uploadDocument clock random_id driverId (Throwing message) w =
     (Returned tt,
      publish (set_drivers_loading (drivers (store w)) false (store w1)) w1)) ∧
  ((∃ d, d ∈ drivers (store w) ∧ id d = driverId) →
   uploadDocument clock random_id driverId (Throwing message) w =
     (Thrown message,
      publish (set_error_loading "Failed to upload document" false (store w1))
        w1)).
Proof.
  intros w0 w1.
  destruct (upload_each_throwing driverId message (random_id (randoms w))
              (drivers (store w)) w1) as [Ha Hp].
  split; intros H;
    unfold uploadDocument, uploadDocument_try, uploadDocument_catch,
      try_catch, mbind, op_bind, bind, set, get, math_random_id, throw;
    simpl; subst w0 w1; simpl in *.
  - by rewrite (Ha H).
  - by rewrite (Hp H).
Qed.

End Runs.

(** ** Properties of the operations *)

Section Properties.

Variable clock : nat -> string.
Variable random_id : nat -> string.

(** Where a statement names a draft without more, the draft is plain
    data, [Plain d]; the drafts that throw when they are read are
    dealt with under the loading flag and the error field. *)

(** *** Creation *)

(** C1, as amended.  For every add-draft that supplies its fields as
    plain data, [addDriver] returns a record
    with the draft's profile fields whose status is inactive, whose
    onboarding status is pending, whose document map is empty, whose
    metadata is zeroed, whose two timestamps are the two readings of the
    clock taken by the run, and whose identifier is the string drawn
    from the random source; the record is appended to the collection.
    The identifier differs from those of the records already present
    whenever the drawn string is not among them. *)
Theorem addDriver_creates_record driverData w :
  ∃ r w',
    addDriver clock random_id (Plain driverData) w = (Returned r, w') ∧
    name r = dd_name driverData ∧ phone r = dd_phone driverData ∧
    email r = dd_email driverData ∧
    licenseNumber r = dd_licenseNumber driverData ∧
    vendorId r = dd_vendorId driverData ∧
    status r = "inactive" ∧
    onboardingStatus r = "pending" ∧
    documents r = ∅ ∧
    metadata r = mkMetadata 0 0 None false ∧
    createdAt r = clock (dates w) ∧
    updatedAt r = clock (S (dates w)) ∧
    dates w' = S (S (dates w)) ∧
    id r = random_id (randoms w) ∧
    drivers (store w') = drivers (store w) ++ [r] ∧
    (random_id (randoms w) ∉ id <$> drivers (store w) →
     ∀ d, d ∈ drivers (store w) → id d ≠ id r).
Proof.
  eexists _, _. split; [apply addDriver_run|].
  simpl. repeat (split; [reflexivity|]).
  intros Hfresh d Hd Heq. apply Hfresh.
  rewrite <- Heq. by apply list_elem_of_fmap_2.
Qed.

(** *** Update *)

(** C2.  When some record has the identifier, [updateDriver id {name: X}]
    returns; the collection keeps its length; a record with another
    identifier is unchanged; a record with the identifier has its name
    replaced by X and its last-update time by a reading of the clock
    taken during the run, and nothing else; the returned record is such
    a rewritten record of the new collection. *)
Theorem updateDriver_name_only w id0 x :
  (∃ d, d ∈ drivers (store w) ∧ id d = id0) →
  ∃ r w',
    updateDriver clock id0 (name_update x) w = (Returned r, w') ∧
    length (drivers (store w')) = length (drivers (store w)) ∧
    (∀ i d, drivers (store w) !! i = Some d → id d ≠ id0 →
            drivers (store w') !! i = Some d) ∧
    (∀ i d, drivers (store w) !! i = Some d → id d = id0 →
            ∃ k, (dates w ≤ k < dates w')%nat ∧
                 drivers (store w') !! i = Some (renamed d x (clock k))) ∧
    (∃ i d k, drivers (store w) !! i = Some d ∧ id d = id0 ∧
              (dates w ≤ k < dates w')%nat ∧
              r = renamed d x (clock k) ∧
              drivers (store w') !! i = Some r).
Proof.
  intros (d0 & Hin & Hid).
  destruct (update_each_run clock id0 (name_update x) (drivers (store w)) None
              (publish (set_loading true (store w)) w))
    as (l' & upd' & n & Hrun & Hall & _ & Hsome).
  rewrite (updateDriver_run _ _ _ _ _ _ _ Hrun).
  destruct Hsome as (i & d & r & Hi & Hd & Hi' & ->).
  { apply Exists_exists. eauto. }
  simpl in Hall.
  eexists r, _. split; [reflexivity|]. simpl.
  assert (Hstep : ∀ j e e', drivers (store w) !! j = Some e →
            l' !! j = Some e' →
            if String.eqb (id e) id0
            then ∃ k, (dates w ≤ k < n + dates w)%nat ∧
                      e' = renamed e x (clock k)
            else e' = e).
  { intros j e e' Hj Hj'.
    exact (Forall2_lookup_lr _ _ _ _ _ _ Hall Hj Hj'). }
  split; [symmetry; eapply Forall2_length, Hall|].
  split; [|split].
  - intros j e Hj Hne.
    destruct (Forall2_lookup_l _ _ _ _ _ Hall Hj) as (e' & Hj' & _).
    specialize (Hstep j e e' Hj Hj').
    destruct (String.eqb_spec (id e) id0); [done|]. by subst.
  - intros j e Hj He.
    destruct (Forall2_lookup_l _ _ _ _ _ Hall Hj) as (e' & Hj' & _).
    specialize (Hstep j e e' Hj Hj').
    rewrite He, String.eqb_refl in Hstep.
    destruct Hstep as (k & Hk & ->). eauto.
  - specialize (Hstep i d r Hi Hi').
    rewrite Hd, String.eqb_refl in Hstep.
    destruct Hstep as (k & Hk & Hr). exists i, d, k.
    split_and!; try done; lia.
Qed.

(** C3.  When no record has the identifier, [updateDriver] throws the
    error "Driver not found" whatever the partial fields are, and the
    collection after the run, as well as in every snapshot published
    meanwhile, is the collection before it. *)
Theorem updateDriver_not_found w id0 updates :
  (∀ d, d ∈ drivers (store w) → id d ≠ id0) →
  ∃ w' l,
    updateDriver clock id0 updates w = (Thrown "Driver not found", w') ∧
    drivers (store w') = drivers (store w) ∧
    published_since w w' l ∧
    Forall (fun s => drivers s = drivers (store w)) l.
Proof.
  intros Habsent. apply Forall_forall in Habsent.
  destruct (update_each_run clock id0 updates (drivers (store w)) None
              (publish (set_loading true (store w)) w))
    as (l' & upd' & n & Hrun & Hall & Hnone & _).
  rewrite (updateDriver_run _ _ _ _ _ _ _ Hrun).
  destruct (Hnone Habsent) as [-> ->].
  simpl in Hall. apply updated_between_absent in Hall; [|done]. subst l'.
  eexists _, _. split; [reflexivity|]. simpl.
  split; [done|]. split.
  - unfold published_since. simpl. rewrite <- !app_assoc. reflexivity.
  - by repeat constructor.
Qed.


(** *** Documents *)


(** C7.  [verifyDocument] always returns and never reads the clock.  In
    a record with the driver identifier whose document map has no key
    [documentId], the map afterwards has a new entry under that key,
    made of the given status and comments and of nothing else; the
    other keys are as before, and so is the record's last-update
    time. *)
Theorem verifyDocument_unknown_key w driverId documentId st comments :
  ∃ w',
    verifyDocument driverId documentId st comments w = (Returned tt, w') ∧
    dates w' = dates w ∧
    error (store w') = error (store w) ∧
    ∀ i d, drivers (store w) !! i = Some d → id d = driverId →
           documents d !! documentId = None →
      ∃ d',
        drivers (store w') !! i = Some d' ∧
        documents d' !! documentId = Some (bare_verdict st comments) ∧
        documents d' ≠ documents d ∧
        (∀ key, key ≠ documentId → documents d' !! key = documents d !! key) ∧
        updatedAt d' = updatedAt d.
Proof.
  eexists. split; [reflexivity|]. simpl. split; [done|]. split; [done|].
  intros i d Hi Hd Hnone.
  exists (with_verdict d documentId st comments).
  split_and!.
  - rewrite lookup_map, Hi. simpl. by rewrite Hd, String.eqb_refl.
  - simpl. by rewrite lookup_insert_eq, Hnone.
  - simpl. intros Heq.
    assert (H : <[documentId:=overlay_verdict (documents d !! documentId)
                               st comments]> (documents d) !! documentId
                = documents d !! documentId) by (by rewrite Heq).
    by rewrite lookup_insert_eq, Hnone in H.
  - intros key Hkey. simpl. by apply lookup_insert_ne.
  - done.
Qed.

(** *** Queries *)

Lemma some_pending_spec d : some_pending (documents d) = true ↔ has_pending d.
Proof.
  unfold some_pending, has_pending. rewrite existsb_exists. split.
  - intros (doc & Hin & Hst).
    apply list_elem_of_In, list_elem_of_fmap in Hin.
    destruct Hin as ([key doc'] & -> & Hin).
    apply elem_of_map_to_list in Hin.
    exists key, doc'. split; [done|]. by apply bool_decide_eq_true in Hst.
  - intros (key & doc & Hkey & Hst).
    exists doc. split; [|by apply bool_decide_eq_true].
    apply list_elem_of_In, list_elem_of_fmap.
    exists (key, doc). split; [done|]. by apply elem_of_map_to_list.
Qed.

(** C8.  [getPendingVerifications] returns, in their order and with
    their multiplicity, exactly the records of the current collection
    that have a pending document; a record without documents has none
    and is never returned; the world after the query is the world
    before it. *)
Theorem getPendingVerifications_exact w :
  getPendingVerifications w =
    (Returned (filter has_pending (drivers (store w))), w) ∧
  (∀ l, fst (getPendingVerifications w) = Returned l →
        (∀ d, d ∈ l ↔ d ∈ drivers (store w) ∧ has_pending d) ∧
        sublist l (drivers (store w)) ∧
        (∀ d, documents d = ∅ → d ∉ l)) ∧
  (∀ d, documents d = ∅ → ¬ has_pending d).
Proof.
  assert (Hrun : getPendingVerifications w =
                 (Returned (filter has_pending (drivers (store w))), w)).
  { unfold getPendingVerifications, mbind, op_bind, bind, get, ret. simpl.
    do 2 f_equal. apply list_filter_iff. intros d. apply some_pending_spec. }
  assert (Hempty : ∀ d, documents d = ∅ → ¬ has_pending d).
  { intros d Hd (key & doc & Hkey & _). by rewrite Hd, lookup_empty in Hkey. }
  split; [exact Hrun|]. split; [|exact Hempty].
  rewrite Hrun. simpl. intros l [= <-]. split_and!.
  - intros d. rewrite list_elem_of_filter. tauto.
  - apply sublist_filter.
  - intros d Hd Hin. apply list_elem_of_filter in Hin as [Hp _].
    by apply (Hempty d).
Qed.

(** *** Loading flag and error field *)

(** C9, as amended.  [addDriver], [updateDriver] and [uploadDocument]
    publish a snapshot with the loading flag raised before anything
    else and end with the flag lowered; when they return the error
    field is what it was before the run, and when they throw it holds
    the message of the operation.  Each of the three can throw:
    [addDriver] and [uploadDocument] on a draft that throws when it is
    read, [updateDriver] on an identifier that no record has. *)
Theorem guarded_operations_request_status :
  (∀ driverData : received DriverData,
     request_status_kept "Failed to add driver"
       (addDriver clock random_id driverData)) ∧
  (∀ id0 updates,
     request_status_kept "Failed to update driver"
       (updateDriver clock id0 updates)) ∧
  (∀ driverId (document : received DocumentDraft),
     request_status_kept "Failed to upload document"
       (uploadDocument clock random_id driverId document)).
Proof.
  split_and!.
  - intros [driverData|message] w.
    + rewrite addDriver_run. simpl.
      eexists _, _. split_and!.
      * unfold published_since. simpl. rewrite <- app_assoc. reflexivity.
      * done.
      * done.
      * done.
      * intros e [=].
    + rewrite addDriver_throwing_run. simpl.
      eexists _, _. split_and!.
      * unfold published_since. simpl. rewrite <- app_assoc. reflexivity.
      * done.
      * done.
      * intros a [=].
      * done.
  - intros id0 updates w.
    destruct (update_each_run clock id0 updates (drivers (store w)) None
                (publish (set_loading true (store w)) w))
      as (l' & upd' & n & Hrun & _).
    rewrite (updateDriver_run _ _ _ _ _ _ _ Hrun).
    destruct upd' as [r|]; simpl.
    + eexists _, _. split_and!.
      * unfold published_since. simpl. rewrite <- app_assoc. reflexivity.
      * done.
      * done.
      * done.
      * intros e [=].
    + eexists _, _. split_and!.
      * unfold published_since. simpl. rewrite <- !app_assoc. reflexivity.
      * done.
      * done.
      * intros a [=].
      * done.
  - intros driverId [document|message] w.
    + destruct (upload_each_run clock driverId document (random_id (randoms w))
                  (drivers (store w))
                  {| store := store (publish (set_loading true (store w)) w);
                     dates := dates (publish (set_loading true (store w)) w);
                     randoms := S (randoms (publish (set_loading true (store w)) w));
                     published := published (publish (set_loading true (store w)) w) |})
        as (l' & n & Hrun & _).
      rewrite (uploadDocument_run _ _ _ _ _ _ _ Hrun). simpl.
      eexists _, _. split_and!.
      * unfold published_since. simpl. rewrite <- app_assoc. reflexivity.
      * done.
      * done.
      * done.
      * intros e [=].
    + destruct (uploadDocument_throwing_run clock random_id driverId message w)
        as [Ha Hp].
      destruct (decide (Exists (fun d => id d = driverId) (drivers (store w))))
        as [HE|HE].
      * apply Exists_exists in HE. rewrite (Hp HE). simpl.
        eexists _, _. split_and!.
        -- unfold published_since. simpl. rewrite <- app_assoc. reflexivity.
        -- done.
        -- done.
        -- intros a [=].
        -- done.
      * apply not_Exists_Forall in HE; [|intros ?; apply _].
        rewrite Forall_forall in HE. rewrite (Ha HE). simpl.
        eexists _, _. split_and!.
        -- unfold published_since. simpl. rewrite <- app_assoc. reflexivity.
        -- done.
        -- done.
        -- done.
        -- intros e [=].
Qed.

(** C10, as amended.  The [catch] clause of [addDriver] runs exactly
    when reading the draft throws.  For a draft that is read without
    an exception, [addDriver] returns the record it appended, the
    collection grows by exactly that record, and neither of the two
    snapshots it publishes nor the final store has another error field
    than the store had before.  For a draft of which an accessor
    throws, the [try] block throws before anything is drawn or
    appended; the [catch] clause then publishes a store with the
    message "Failed to add driver", the loading flag lowered and the
    collection of before, and the error is thrown on to the caller. *)
Theorem addDriver_fails_only_on_draft :
  (∀ (driverData : received DriverData) w,
     (∃ e w', addDriver_try clock random_id driverData w = (Thrown e, w')) ↔
     (∃ e, driverData = Throwing e)) ∧
  (∀ (driverData : DriverData) w,
     ∃ r w' s,
       addDriver clock random_id (Plain driverData) w = (Returned r, w') ∧
       drivers (store w') = drivers (store w) ++ [r] ∧
       length (drivers (store w')) = S (length (drivers (store w))) ∧
       published_since w w' [set_loading true (store w); s] ∧
       error (set_loading true (store w)) = error (store w) ∧
       error s = error (store w) ∧
       store w' = s) ∧
  (∀ message w,
     ∃ w' s,
       addDriver clock random_id (Throwing message) w = (Thrown message, w') ∧
       published_since w w' [set_loading true (store w); s] ∧
       store w' = s ∧
       error s = Some "Failed to add driver" ∧
       loading s = false ∧
       drivers s = drivers (store w) ∧
       dates w' = dates w ∧ randoms w' = randoms w).
Proof.
  split_and!.
  - intros [driverData|message] w; split.
    + rewrite addDriver_try_run. by intros (e & w' & [=]).
    + by intros (e & [=]).
    + eauto.
    + intros _. by eexists _, _.
  - intros driverData w. rewrite addDriver_run.
    exists (created_driver clock random_id driverData w).
    eexists _, (set_drivers_loading
                  (drivers (store w) ++
                   [created_driver clock random_id driverData w])
                  false (store w)).
    split; [reflexivity|]. simpl.
    split_and!; try done.
    + rewrite length_app. simpl. lia.
    + unfold published_since. simpl. rewrite <- app_assoc. reflexivity.
  - intros message w. rewrite addDriver_throwing_run.
    eexists _, (set_error_loading "Failed to add driver" false
                  (set_loading true (store w))).
    split; [reflexivity|]. simpl. split_and!; try done.
    unfold published_since. simpl. rewrite <- app_assoc. reflexivity.
Qed.

(** The four operations written without the request-status pattern
    never read the clock and leave every last-update time as it was. *)
Lemma unguarded_mutators_keep_updatedAt w driverId :
  (∀ documentId st comments,
     dates (snd (verifyDocument driverId documentId st comments w)) = dates w ∧
     updatedAt <$> drivers (store (snd (verifyDocument driverId documentId st
                                          comments w))) =
     updatedAt <$> drivers (store w)) ∧
  (∀ v,
     dates (snd (assignVehicle driverId v w)) = dates w ∧
     updatedAt <$> drivers (store (snd (assignVehicle driverId v w))) =
     updatedAt <$> drivers (store w)) ∧
  (dates (snd (unassignVehicle driverId w)) = dates w ∧
   updatedAt <$> drivers (store (snd (unassignVehicle driverId w))) =
   updatedAt <$> drivers (store w)) ∧
  (∀ st,
     dates (snd (updateOnboardingStatus driverId st w)) = dates w ∧
     updatedAt <$> drivers (store (snd (updateOnboardingStatus driverId st w))) =
     updatedAt <$> drivers (store w)).
Proof.
  assert (Hmap : ∀ (f : Driver → Driver) l,
            (∀ d, updatedAt (f d) = updatedAt d) →
            updatedAt <$>
              map (fun d => if String.eqb (id d) driverId then f d else d) l
            = updatedAt <$> l).
  { intros f l Hf. induction l as [|d l IH]; [done|].
    simpl. f_equal; [|exact IH].
    destruct (String.eqb (id d) driverId); [apply Hf|done]. }
  split_and!; intros; simpl; try split; try done; by apply Hmap.
Qed.

End Properties.

(** ** The operations on the seeded store *)

(** C4 fails on the code.  On the seeded store, [assignVehicle],
    [unassignVehicle], [updateOnboardingStatus] and [verifyDocument]
    each change a field of the driver 1 and leave its last-update time
    at the seed's value, without reading the clock. *)
Theorem seeded_mutations_keep_updatedAt :
  updatedAt johnDoe = "2024-03-15T00:00:00Z" ∧
  (∃ d w',
     assignVehicle "1" "V9" initialWorld = (Returned tt, w') ∧
     drivers (store w') = [d] ∧
     vehicleId johnDoe = None ∧ vehicleId d = Some "V9" ∧
     updatedAt d = "2024-03-15T00:00:00Z" ∧ dates w' = 0 ∧
     ∃ d' w'',
       unassignVehicle "1" w' = (Returned tt, w'') ∧
       drivers (store w'') = [d'] ∧
       vehicleId d' = None ∧
       updatedAt d' = "2024-03-15T00:00:00Z" ∧ dates w'' = 0) ∧
  (∃ d w',
     updateOnboardingStatus "1" "pending" initialWorld = (Returned tt, w') ∧
     drivers (store w') = [d] ∧
     onboardingStatus johnDoe = "completed" ∧
     onboardingStatus d = "pending" ∧
     updatedAt d = "2024-03-15T00:00:00Z" ∧ dates w' = 0) ∧
  (∃ d w' doc,
     verifyDocument "1" "license" "rejected" (Some "blurred") initialWorld =
       (Returned tt, w') ∧
     drivers (store w') = [d] ∧
     documents d !! "license" = Some doc ∧
     doc_status doc = Some "rejected" ∧
     documents d ≠ documents johnDoe ∧
     updatedAt d = "2024-03-15T00:00:00Z" ∧ dates w' = 0).
Proof.
  split_and!.
  - reflexivity.
  - eexists _, _. split_and!; try reflexivity.
    eexists _, _. split_and!; reflexivity.
  - eexists _, _. split_and!; reflexivity.
  - eexists _, _, _. split_and!; try reflexivity.
    intros H. apply (f_equal (fun m => m !! "license")) in H.
    vm_compute in H. discriminate.
Qed.

Lemma only_johnDoe d : d ∈ drivers (store initialWorld) → d = johnDoe.
Proof.
  intros H. inversion H as [|? ? ? H']; [done|]. inversion H'.
Defined.

Lemma johnDoe_present :
  ∃ d, d ∈ drivers (store initialWorld) ∧ id d = "1".
Proof. exists johnDoe. split; [constructor|reflexivity]. Defined.

(** C1 fails as stated.  With a random source that yields 0.5 twice, the
    second [addDriver] returns a record whose identifier is the one of
    the record that the first appended. *)
Lemma addDriver_id_can_repeat :
  ∃ w r w' d,
    snd (addDriver noon always_half (Plain jane) initialWorld) = w ∧
    addDriver noon always_half (Plain jane) w = (Returned r, w') ∧
    d ∈ drivers (store w) ∧
    id d = id r.
Proof.
  eexists _, _, _, (created_driver noon always_half jane initialWorld).
  split_and!; [reflexivity|reflexivity| |reflexivity].
  simpl. apply list_elem_of_further. constructor.
Qed.

Lemma addDriver_creates_record_witness :
  (always_half (randoms initialWorld) ∉ id <$> drivers (store initialWorld)) ∧
  ∃ r w',
    addDriver noon always_half (Plain jane) initialWorld = (Returned r, w') ∧
    status r = "inactive" ∧ onboardingStatus r = "pending" ∧
    documents r = ∅ ∧ id r = "i" ∧
    drivers (store w') = [johnDoe; r] ∧
    ∀ d, d ∈ drivers (store initialWorld) → id d ≠ id r.
Proof.
  assert (Hfresh : always_half (randoms initialWorld)
                   ∉ id <$> drivers (store initialWorld)).
  { simpl. intros H. inversion H as [|? ? ? H']; inversion H'. }
  split; [exact Hfresh|].
  destruct (addDriver_creates_record noon always_half jane initialWorld)
    as (r & w' & Hrun & _ & _ & _ & _ & _ & Hst & Hon & Hdocs & _ & _ & _ & _
        & Hid & Happ & Hnew).
  exists r, w'. split_and!; try done.
  by apply Hnew.
Defined.

Lemma updateDriver_name_only_witness :
  (∃ d, d ∈ drivers (store initialWorld) ∧ id d = "1") ∧
  ∃ r w',
    updateDriver noon "1" (name_update "Johnny") initialWorld = (Returned r, w') ∧
    r = renamed johnDoe "Johnny" (noon 0) ∧
    drivers (store w') = [r].
Proof.
  split; [exact johnDoe_present|].
  destruct (updateDriver_name_only noon initialWorld "1" "Johnny" johnDoe_present)
    as (r & w' & Hrun & _).
  exists r, w'. split; [exact Hrun|].
  vm_compute in Hrun. injection Hrun as <- <-. split; reflexivity.
Defined.

Lemma updateDriver_not_found_witness :
  (∀ d, d ∈ drivers (store initialWorld) → id d ≠ "404") ∧
  ∃ w',
    updateDriver noon "404" (name_update "Nobody") initialWorld =
      (Thrown "Driver not found", w') ∧
    drivers (store w') = drivers (store initialWorld).
Proof.
  assert (Habsent : ∀ d, d ∈ drivers (store initialWorld) → id d ≠ "404").
  { intros d Hd. rewrite (only_johnDoe d Hd). discriminate. }
  split; [exact Habsent|].
  destruct (updateDriver_not_found noon initialWorld "404"
              (name_update "Nobody") Habsent)
    as (w' & l & Hrun & Hsame & _).
  exists w'. by split.
Defined.




Lemma verifyDocument_unknown_key_witness :
  (drivers (store initialWorld) !! 0 = Some johnDoe ∧ id johnDoe = "1" ∧
   documents johnDoe !! "doc1" = None) ∧
  ∃ d' w',
    verifyDocument "1" "doc1" "verified" (Some "ok") initialWorld =
      (Returned tt, w') ∧
    drivers (store w') !! 0 = Some d' ∧
    documents d' !! "doc1" = Some (bare_verdict "verified" (Some "ok")) ∧
    documents d' !! "license" = documents johnDoe !! "license" ∧
    updatedAt d' = updatedAt johnDoe.
Proof.
  split; [by split_and!|].
  destruct (verifyDocument_unknown_key initialWorld "1" "doc1" "verified"
              (Some "ok"))
    as (w' & Hrun & _ & _ & Hnew).
  destruct (Hnew 0 johnDoe eq_refl eq_refl eq_refl)
    as (d' & Hi & Hdoc & _ & Hother & Hup).
  exists d', w'. split_and!; try done.
  apply Hother. discriminate.
Defined.

Lemma getPendingVerifications_exact_witness :
  ∃ w l,
    snd (uploadDocument noon always_half "1" (Plain license_draft)
           (snd (addDriver noon always_half (Plain jane) initialWorld))) = w ∧
    fst (getPendingVerifications w) = Returned l ∧
    id <$> l = ["1"] ∧
    (∀ d, d ∈ l ↔ d ∈ drivers (store w) ∧ has_pending d) ∧
    (∀ d, documents d = ∅ → d ∉ l).
Proof.
  eexists _, _. split; [reflexivity|].
  match goal with
  | |- fst (getPendingVerifications ?w) = _ ∧ _ =>
      destruct (getPendingVerifications_exact w) as (Hrun & Hall & _)
  end.
  split; [rewrite Hrun; reflexivity|].
  split; [reflexivity|].
  destruct (Hall _ (f_equal fst Hrun)) as (Hmem & _ & Hnone).
  simpl in Hmem, Hnone. by split.
Defined.

(** C9 fails as stated.  [deleteDriver] publishes no snapshot with the
    loading flag raised, and an [addDriver] that returns leaves in the
    error field the message that a failed [updateDriver] put there. *)
Lemma request_status_pattern_fails :
  ¬ request_status_pattern (deleteDriver "1") ∧
  ¬ request_status_pattern (addDriver noon always_half (Plain jane)).
Proof.
  split.
  - intros H. destruct (H initialWorld) as (first & rest & Hp & Hl & _).
    unfold published_since in Hp. simpl in Hp.
    injection Hp as <- _. discriminate.
  - intros H.
    destruct (H (snd (updateDriver noon "404" no_updates initialWorld)))
      as (first & rest & _ & _ & _ & He).
    specialize (He _ eq_refl). discriminate.
Qed.

Lemma guarded_operations_request_status_witness :
  (fst (addDriver noon always_half (Throwing "boom") initialWorld) =
     Thrown "boom" ∧
   loading (store (snd (addDriver noon always_half (Throwing "boom")
                          initialWorld))) = false ∧
   error (store (snd (addDriver noon always_half (Throwing "boom")
                        initialWorld))) = Some "Failed to add driver") ∧
  (fst (updateDriver noon "404" no_updates initialWorld) =
     Thrown "Driver not found" ∧
   error (store (snd (updateDriver noon "404" no_updates initialWorld))) =
     Some "Failed to update driver") ∧
  (fst (uploadDocument noon always_half "1" (Throwing "boom") initialWorld) =
     Thrown "boom" ∧
   error (store (snd (uploadDocument noon always_half "1" (Throwing "boom")
                        initialWorld))) = Some "Failed to upload document") ∧
  ∃ w a first rest,
    snd (updateDriver noon "404" no_updates initialWorld) = w ∧
    error (store w) = Some "Failed to update driver" ∧
    fst (addDriver noon always_half (Plain jane) w) = Returned a ∧
    published_since w (snd (addDriver noon always_half (Plain jane) w))
      (first :: rest) ∧
    loading first = true ∧
    loading (store (snd (addDriver noon always_half (Plain jane) w))) = false ∧
    error (store (snd (addDriver noon always_half (Plain jane) w))) =
      Some "Failed to update driver".
Proof.
  destruct (guarded_operations_request_status noon always_half)
    as (Hadd & Hupdate & Hupload).
  split_and!.
  - reflexivity.
  - by destruct (Hadd (Throwing "boom") initialWorld)
      as (first & rest & _ & _ & Hf & _).
  - destruct (Hadd (Throwing "boom") initialWorld)
      as (first & rest & _ & _ & _ & _ & Hfail).
    exact (Hfail "boom" eq_refl).
  - reflexivity.
  - destruct (Hupdate "404" no_updates initialWorld)
      as (first & rest & _ & _ & _ & _ & Hfail).
    exact (Hfail "Driver not found" eq_refl).
  - reflexivity.
  - destruct (Hupload "1" (Throwing "boom") initialWorld)
      as (first & rest & _ & _ & _ & _ & Hfail).
    exact (Hfail "boom" eq_refl).
  - destruct (Hadd (Plain jane)
                (snd (updateDriver noon "404" no_updates initialWorld)))
      as (first & rest & Hp & Hl & Hf & Hok & _).
    eexists _, (created_driver noon always_half jane
                  (snd (updateDriver noon "404" no_updates initialWorld))),
      first, rest.
    split_and!; [reflexivity|reflexivity|reflexivity|exact Hp|exact Hl
                |exact Hf|].
    rewrite (Hok _ eq_refl). reflexivity.
Defined.

(** C10 fails as stated.  A draft one of whose accessors throws makes
    the [try] block of [addDriver] throw: the [catch] clause runs,
    leaves "Failed to add driver" in the error field and throws the
    error on, and no record is appended. *)
Lemma addDriver_catch_runs :
  ∃ w',
    addDriver noon always_half (Throwing "boom") initialWorld =
      (Thrown "boom", w') ∧
    error (store w') = Some "Failed to add driver" ∧
    drivers (store w') = drivers (store initialWorld).
Proof. eexists. split_and!; reflexivity. Qed.

Lemma addDriver_fails_only_on_draft_witness :
  (∃ e w',
     addDriver_try noon always_half (Throwing "boom") initialWorld =
       (Thrown e, w')) ∧
  (∃ r w',
     addDriver noon always_half (Plain jane) initialWorld = (Returned r, w') ∧
     drivers (store w') = [johnDoe; r] ∧
     error (store w') = None) ∧
  (∃ w',
     addDriver noon always_half (Throwing "boom") initialWorld =
       (Thrown "boom", w') ∧
     error (store w') = Some "Failed to add driver" ∧
     drivers (store w') = [johnDoe]).
Proof.
  destruct (addDriver_fails_only_on_draft noon always_half)
    as (Hiff & Hplain & Hthrowing).
  split_and!.
  - apply Hiff. by exists "boom".
  - destruct (Hplain jane initialWorld)
      as (r & w' & s & Hrun & Happ & _ & _ & _ & Herr & Hs).
    exists r, w'. split; [exact Hrun|]. split; [exact Happ|].
    by rewrite Hs, Herr.
  - destruct (Hthrowing "boom" initialWorld)
      as (w' & s & Hrun & _ & Hs & Herr & _ & Hdrivers & _).
    exists w'. split; [exact Hrun|]. by rewrite Hs.
Defined.

(** ** Lookups in a collection *)

Section Lookups.

Implicit Types (l : list Driver) (d : Driver).

Lemma find_id_None l (id0 : string) :
  find (fun d => String.eqb (id d) id0) l = None ↔
  ∀ d, d ∈ l → id d ≠ id0.
Proof.
  induction l as [|e l IH]; simpl.
  - split; [intros _ d Hd; inversion Hd|done].
  - destruct (String.eqb_spec (id e) id0) as [He|He].
    + split; [done|]. intros H. destruct (H e); [constructor|done].
    + rewrite IH. split.
      * intros H d Hd. inversion Hd; subst; [done|by apply H].
      * intros H d Hd. apply H. by constructor.
Qed.

(** [find] returns the leftmost record with the identifier. *)
Lemma find_id_Some l (id0 : string) d :
  find (fun d => String.eqb (id d) id0) l = Some d →
  id d = id0 ∧
  ∃ i, l !! i = Some d ∧
       ∀ j e, (j < i)%nat → l !! j = Some e → id e ≠ id0.
Proof.
  induction l as [|e l IH]; simpl; [done|].
  destruct (String.eqb_spec (id e) id0) as [He|He].
  - intros [= <-]. split; [done|]. exists 0. split; [done|]. intros; lia.
  - intros H. destruct (IH H) as (Hd & i & Hi & Hbefore).
    split; [done|]. exists (S i). split; [done|].
    intros [|j] e' Hj He'; simpl in He'.
    + by injection He' as <-.
    + apply (Hbefore j); [lia|done].
Qed.

Lemma find_id_present l (id0 : string) :
  (∃ d, d ∈ l ∧ id d = id0) →
  ∃ d, find (fun d => String.eqb (id d) id0) l = Some d.
Proof.
  intros (d & Hd & Hid).
  destruct (find _ l) as [e|] eqn:E; [eauto|].
  exfalso. by apply (proj1 (find_id_None l id0) E d).
Qed.

(** Looking up after a [map] that rewrites records without touching
    their identifiers. *)
Lemma find_id_map (g : Driver → Driver) l (id0 : string) :
  (∀ d, id (g d) = id d) →
  find (fun d => String.eqb (id d) id0) (map g l) =
  g <$> find (fun d => String.eqb (id d) id0) l.
Proof.
  intros Hg. induction l as [|e l IH]; simpl; [done|].
  rewrite Hg. by destruct (String.eqb (id e) id0).
Qed.

(** The same for a record-wise relation. *)
Lemma find_id_Forall2 (R : Driver → Driver → Prop) l l' (id0 : string) d :
  (∀ e e', R e e' → id e' = id e) →
  Forall2 R l l' →
  find (fun d => String.eqb (id d) id0) l = Some d →
  ∃ d', find (fun d => String.eqb (id d) id0) l' = Some d' ∧ R d d'.
Proof.
  intros HR H2. induction H2 as [|e e' l l' He _ IH]; simpl; [done|].
  rewrite (HR _ _ He).
  destruct (String.eqb (id e) id0); [|exact IH].
  intros [= <-]. eauto.
Qed.

Lemma filter_absent l (id0 : string) :
  (∀ d, d ∈ l → id d ≠ id0) → filter (fun d => id d ≠ id0) l = l.
Proof.
  intros H. induction l as [|e l IH]; [done|].
  rewrite filter_cons_True by (apply H; constructor).
  f_equal. apply IH. intros d Hd. apply H. by constructor.
Qed.

End Lookups.

Lemma find_app_id (l l' : list Driver) (id0 : string) :
  find (fun d => String.eqb (id d) id0) (l ++ l') =
  match find (fun d => String.eqb (id d) id0) l with
  | Some d => Some d
  | None => find (fun d => String.eqb (id d) id0) l'
  end.
Proof.
  induction l as [|e l IH]; simpl; [done|].
  by destruct (String.eqb (id e) id0).
Qed.

(** ** Further properties: lookup, deletion and creation *)

Section Further.

Variable clock : nat -> string.
Variable random_id : nat -> string.

(** Here too a draft is plain data unless the statement says
    otherwise. *)

(** X1.  [deleteDriver] always returns.  Afterwards the collection
    is the one of before without the records that have the identifier,
    the others in their order and as often as before; [getDriver]
    finds nothing under the identifier, and the loading flag and the
    error field are what they were. *)
Theorem deleteDriver_removes w id0 :
  ∃ w',
    deleteDriver id0 w = (Returned tt, w') ∧
    drivers (store w') = filter (fun d => id d ≠ id0) (drivers (store w)) ∧
    (∀ d, d ∈ drivers (store w') ↔ d ∈ drivers (store w) ∧ id d ≠ id0) ∧
    sublist (drivers (store w')) (drivers (store w)) ∧
    getDriver id0 w' = (Returned None, w') ∧
    loading (store w') = loading (store w) ∧
    error (store w') = error (store w).
Proof.
  eexists. split; [reflexivity|]. simpl. split_and!; try done.
  - intros d. rewrite list_elem_of_filter. tauto.
  - apply sublist_filter.
  - unfold getDriver, mbind, op_bind, bind, get, ret. simpl. do 2 f_equal.
    apply find_id_None. intros d Hd. by apply list_elem_of_filter in Hd as [? _].
Qed.

(** X2.  When no record has the identifier, [deleteDriver] returns
    without an error and the collection is the one before the call. *)
Theorem deleteDriver_absent w id0 :
  (∀ d, d ∈ drivers (store w) → id d ≠ id0) →
  ∃ w',
    deleteDriver id0 w = (Returned tt, w') ∧
    drivers (store w') = drivers (store w) ∧
    error (store w') = error (store w).
Proof.
  intros Habsent. eexists. split; [reflexivity|]. simpl.
  split; [by apply filter_absent|done].
Qed.

(** X3.  [getDriver] leaves the world as it is.  It returns nothing
    exactly when no record has the identifier; otherwise it returns
    the leftmost record of the collection that has it. *)
Theorem getDriver_leftmost w id0 :
  ∃ o,
    getDriver id0 w = (Returned o, w) ∧
    (o = None ↔ ∀ d, d ∈ drivers (store w) → id d ≠ id0) ∧
    (∀ d, o = Some d →
          id d = id0 ∧
          ∃ i, drivers (store w) !! i = Some d ∧
               ∀ j e, (j < i)%nat → drivers (store w) !! j = Some e →
                      id e ≠ id0).
Proof.
  eexists. split; [reflexivity|]. split.
  - apply find_id_None.
  - intros d. apply find_id_Some.
Qed.

(** X4.  A record just created is inactive and has no document: after
    [addDriver] the active drivers and the drivers with a pending
    verification are the same lists as before, and the drivers of a
    vendor are those of before, followed by the new record when the
    draft names that vendor. *)
Theorem queries_after_addDriver driverData w vendorId0 :
  ∃ r w',
    addDriver clock random_id (Plain driverData) w = (Returned r, w') ∧
    fst (getActiveDrivers w') = fst (getActiveDrivers w) ∧
    fst (getPendingVerifications w') = fst (getPendingVerifications w) ∧
    ∃ before,
      fst (getDriversByVendor vendorId0 w) = Returned before ∧
      fst (getDriversByVendor vendorId0 w') =
        Returned (before ++
                  if decide (dd_vendorId driverData = vendorId0)
                  then [r] else []).
Proof.
  eexists _, _. split; [apply addDriver_run|]. simpl. split_and!.
  - f_equal. rewrite filter_app.
    rewrite filter_cons_False, filter_nil by done. apply app_nil_r.
  - f_equal. rewrite filter_app.
    rewrite filter_cons_False, filter_nil; [apply app_nil_r|].
    simpl. unfold some_pending. by rewrite map_to_list_empty.
  - eexists. split; [reflexivity|]. f_equal. by rewrite filter_app.
Qed.

(** X5.  After [addDriver], [getDriver] under the new record's
    identifier returns the new record when no older record has that
    identifier; when [getDriver] found an older record under it before
    the call, it still returns that older record, and the new one
    cannot be looked up. *)
Theorem getDriver_after_addDriver driverData w :
  ∃ r w',
    addDriver clock random_id (Plain driverData) w = (Returned r, w') ∧
    ((∀ d, d ∈ drivers (store w) → id d ≠ id r) →
     getDriver (id r) w' = (Returned (Some r), w')) ∧
    (∀ d, getDriver (id r) w = (Returned (Some d), w) →
          getDriver (id r) w' = (Returned (Some d), w')).
Proof.
  eexists _, _. split; [apply addDriver_run|]. simpl. split.
  - intros Hfresh. apply find_id_None in Hfresh.
    unfold getDriver, mbind, op_bind, bind, get, ret. simpl. do 2 f_equal.
    rewrite find_app_id, Hfresh. simpl. by rewrite String.eqb_refl.
  - intros d Hd.
    unfold getDriver, mbind, op_bind, bind, get, ret in *. simpl in *.
    injection Hd as Hd. do 2 f_equal.
    by rewrite find_app_id, Hd.
Qed.

(** X6.  Deleting under the new record's identifier right after
    [addDriver] leaves the records of before that have another
    identifier: the collection of before when the identifier was not
    in use, and otherwise a collection that has lost the older records
    with that identifier as well. *)
Theorem deleteDriver_after_addDriver driverData w :
  ∃ r w' w'',
    addDriver clock random_id (Plain driverData) w = (Returned r, w') ∧
    deleteDriver (id r) w' = (Returned tt, w'') ∧
    drivers (store w'') =
      filter (fun d => id d ≠ id r) (drivers (store w)) ∧
    ((∀ d, d ∈ drivers (store w) → id d ≠ id r) →
     drivers (store w'') = drivers (store w)).
Proof.
  eexists _, _, _. split; [apply addDriver_run|].
  split; [reflexivity|]. simpl.
  assert (Hdel : filter
                   (fun d => id d ≠ random_id (randoms w))
                   (drivers (store w) ++
                    [created_driver clock random_id driverData w]) =
                 filter (fun d => id d ≠ random_id (randoms w))
                   (drivers (store w))).
  { rewrite filter_app, filter_cons_False, filter_nil.
    - apply app_nil_r.
    - simpl. intros H. by apply H. }
  split; [exact Hdel|].
  intros Hfresh. rewrite Hdel. by apply filter_absent.
Qed.

(** *** Documents, looked up through [getDriver] *)

Lemma getDriver_run id0 w :
  getDriver id0 w =
  (Returned (find (fun d => String.eqb (id d) id0) (drivers (store w))), w).
Proof. reflexivity. Qed.

Lemma getPendingVerifications_run w :
  getPendingVerifications w =
  (Returned (filter (fun d => some_pending (documents d) = true)
               (drivers (store w))), w).
Proof. reflexivity. Qed.

(** The outcome of [uploadDocument], record by record. *)
Lemma uploadDocument_result driverId document w :
  ∃ w' n,
    uploadDocument clock random_id driverId (Plain document) w =
      (Returned tt, w') ∧
    dates w' = (n + dates w)%nat ∧
    randoms w' = S (randoms w) ∧
    loading (store w') = false ∧
    error (store w') = error (store w) ∧
    Forall2 (uploaded_between clock driverId document (random_id (randoms w))
               (dates w) (n + dates w))
      (drivers (store w)) (drivers (store w')).
Proof.
  destruct (upload_each_run clock driverId document (random_id (randoms w))
              (drivers (store w))
              {| store := store (publish (set_loading true (store w)) w);
                 dates := dates (publish (set_loading true (store w)) w);
                 randoms := S (randoms (publish (set_loading true (store w)) w));
                 published := published (publish (set_loading true (store w)) w) |})
    as (l' & n & Hrun & Hall & _).
  rewrite (uploadDocument_run _ _ _ _ _ _ _ Hrun).
  eexists _, n. split; [reflexivity|]. simpl. by split_and!.
Qed.

Lemma uploaded_between_id driverId document documentId (lo hi : nat) e e' :
  uploaded_between clock driverId document documentId lo hi e e' →
  id e' = id e.
Proof.
  unfold uploaded_between.
  destruct (String.eqb (id e) driverId); [|by intros ->].
  by intros (k & _ & ->).
Qed.

(** What [getDriver] finds after an [uploadDocument]. *)
Lemma getDriver_after_uploadDocument_aux w driverId document d :
  getDriver driverId w = (Returned (Some d), w) →
  ∃ w' d',
    uploadDocument clock random_id driverId (Plain document) w =
      (Returned tt, w') ∧
    find (fun e => String.eqb (id e) driverId) (drivers (store w')) = Some d' ∧
    documents d' !! dd_type document =
      Some (pending_document document (random_id (randoms w))) ∧
    (∀ key, key ≠ dd_type document →
            documents d' !! key = documents d !! key).
Proof.
  rewrite getDriver_run. intros [= Hfind].
  destruct (uploadDocument_result driverId document w)
    as (w' & n & Hrun & _ & _ & _ & _ & Hall).
  destruct (find_id_Forall2 _ _ _ _ _
              (uploaded_between_id _ _ _ _ _) Hall Hfind)
    as (d' & Hfind' & Hrel).
  destruct (find_id_Some _ _ _ Hfind) as (Hid & _).
  unfold uploaded_between in Hrel. rewrite Hid, String.eqb_refl in Hrel.
  destruct Hrel as (k & Hk & ->).
  exists w'. eexists. split; [exact Hrun|]. split; [exact Hfind'|].
  simpl. split; [apply lookup_insert_eq|].
  intros key Hkey. by apply lookup_insert_ne.
Qed.


(** X8.  Documents are stored under their declared type, while
    [verifyDocument] looks them up by the key it is given.  When the
    identifier that [uploadDocument] drew for the document is not the
    declared type, a [verifyDocument] under that identifier leaves the
    uploaded document as it was, still pending, whatever the verdict,
    and the driver stays among the pending verifications. *)
Theorem verifyDocument_by_document_id w driverId document st comments d :
  getDriver driverId w = (Returned (Some d), w) →
  random_id (randoms w) ≠ dd_type document →
  ∃ w' w'' d'' l,
    uploadDocument clock random_id driverId (Plain document) w =
      (Returned tt, w') ∧
    verifyDocument driverId (random_id (randoms w)) st comments w' =
      (Returned tt, w'') ∧
    getDriver driverId w'' = (Returned (Some d''), w'') ∧
    documents d'' !! dd_type document =
      Some (pending_document document (random_id (randoms w))) ∧
    fst (getPendingVerifications w'') = Returned l ∧
    d'' ∈ l.
Proof.
  intros Hget Hne.
  destruct (getDriver_after_uploadDocument_aux w driverId document d Hget)
    as (w' & d' & Hrun & Hfind' & Hdoc & _).
  destruct (find_id_Some _ _ _ Hfind') as (Hid & _).
  eexists w', _, _, _. split; [exact Hrun|]. split; [reflexivity|].
  rewrite getDriver_run, getPendingVerifications_run. simpl.
  rewrite find_id_map, Hfind' by (intros e; by destruct (String.eqb (id e) driverId)).
  simpl. rewrite Hid, String.eqb_refl.
  assert (Hdoc'' : documents (with_verdict d' (random_id (randoms w)) st comments)
                     !! dd_type document =
                   Some (pending_document document (random_id (randoms w)))).
  { simpl. by rewrite lookup_insert_ne. }
  split_and!; [reflexivity|exact Hdoc''|reflexivity|].
  apply list_elem_of_filter. split.
  - apply some_pending_spec. eexists _, _. split; [exact Hdoc''|done].
  - destruct (find_id_Some _ _ _ Hfind') as (_ & i & Hi & _).
    apply list_elem_of_lookup. exists i.
    rewrite lookup_map, Hi. simpl. by rewrite Hid, String.eqb_refl.
Qed.

(** X9.  [verifyDocument] under a key that the document map has
    overlays the verdict on the document found there: status and
    comments are the given ones (absent comments erase the old ones),
    the other fields of the document, the other keys and the key set
    are as before. *)
Theorem verifyDocument_known_key w driverId documentId st comments :
  ∃ w',
    verifyDocument driverId documentId st comments w = (Returned tt, w') ∧
    ∀ i d doc, drivers (store w) !! i = Some d → id d = driverId →
               documents d !! documentId = Some doc →
      ∃ d' doc',
        drivers (store w') !! i = Some d' ∧
        documents d' !! documentId = Some doc' ∧
        doc_status doc' = Some st ∧
        doc_comments doc' = comments ∧
        doc_id doc' = doc_id doc ∧
        doc_type doc' = doc_type doc ∧
        doc_number doc' = doc_number doc ∧
        doc_expiryDate doc' = doc_expiryDate doc ∧
        doc_issuedDate doc' = doc_issuedDate doc ∧
        doc_fileUrl doc' = doc_fileUrl doc ∧
        dom (documents d') = dom (documents d) ∧
        (∀ key, key ≠ documentId →
                documents d' !! key = documents d !! key).
Proof.
  eexists. split; [reflexivity|]. simpl.
  intros i d doc Hi Hd Hdoc.
  exists (with_verdict d documentId st comments),
         (overlay_verdict (Some doc) st comments).
  split_and!; try done.
  - rewrite lookup_map, Hi. simpl. by rewrite Hd, String.eqb_refl.
  - simpl. by rewrite lookup_insert_eq, Hdoc.
  - simpl. apply dom_insert_lookup_L. by rewrite Hdoc.
  - intros key Hkey. simpl. by apply lookup_insert_ne.
Qed.

(** X10.  When [getDriver] finds a record under the identifier,
    [uploadDocument] followed by [verifyDocument] under the draft's
    declared type leaves under that type the uploaded document with
    the given status and comments; the other keys are those of the
    record before the upload.  When the status is not pending and no
    document under another key was pending, the record has no pending
    document left. *)
Theorem verifyDocument_by_type w driverId document st comments d :
  getDriver driverId w = (Returned (Some d), w) →
  ∃ w' w'' d'' doc,
    uploadDocument clock random_id driverId (Plain document) w =
      (Returned tt, w') ∧
    verifyDocument driverId (dd_type document) st comments w' =
      (Returned tt, w'') ∧
    getDriver driverId w'' = (Returned (Some d''), w'') ∧
    documents d'' !! dd_type document = Some doc ∧
    doc_id doc = Some (random_id (randoms w)) ∧
    doc_number doc = Some (dd_number document) ∧
    doc_status doc = Some st ∧
    doc_comments doc = comments ∧
    (∀ key, key ≠ dd_type document →
            documents d'' !! key = documents d !! key) ∧
    (st ≠ "pending" →
     (∀ key doc0, key ≠ dd_type document →
                  documents d !! key = Some doc0 →
                  doc_status doc0 ≠ Some "pending") →
     ¬ has_pending d'').
Proof.
  intros Hget.
  destruct (getDriver_after_uploadDocument_aux w driverId document d Hget)
    as (w' & d' & Hrun & Hfind' & Hdoc & Hother).
  destruct (find_id_Some _ _ _ Hfind') as (Hid & _).
  eexists w', _, _, _. split; [exact Hrun|]. split; [reflexivity|].
  rewrite getDriver_run. simpl.
  rewrite find_id_map, Hfind'
    by (intros e; by destruct (String.eqb (id e) driverId)).
  simpl. rewrite Hid, String.eqb_refl. split; [reflexivity|].
  assert (Hkeys : ∀ key, key ≠ dd_type document →
            documents (with_verdict d' (dd_type document) st comments) !! key
            = documents d !! key).
  { intros key Hkey. simpl. rewrite lookup_insert_ne by done. by apply Hother. }
  split; [simpl; rewrite lookup_insert_eq, Hdoc; reflexivity|].
  split_and!; try done.
  intros Hst Hnone (key & doc & Hkey & Hpending).
  destruct (decide (key = dd_type document)) as [->|Hne].
  - simpl in Hkey. rewrite lookup_insert_eq, Hdoc in Hkey.
    injection Hkey as <-. simpl in Hpending. congruence.
  - rewrite Hkeys in Hkey by done. by apply (Hnone key doc).
Qed.

(** *** Assignment and onboarding *)

(** A [map] that rewrites the records of one identifier, and keeps
    their identifier, is invisible to a lookup under another one. *)
Lemma find_other_map (g : Driver → Driver) l (driverId other : string) :
  (∀ d, id (g d) = id d) →
  other ≠ driverId →
  find (fun d => String.eqb (id d) other)
    (map (fun d => if String.eqb (id d) driverId then g d else d) l) =
  find (fun d => String.eqb (id d) other) l.
Proof.
  intros Hg Hne. induction l as [|e l IH]; simpl; [done|].
  destruct (String.eqb_spec (id e) driverId) as [He|He].
  - rewrite Hg. destruct (String.eqb_spec (id e) other); [congruence|done].
  - destruct (String.eqb (id e) other); [done|exact IH].
Qed.

Lemma find_same_map (g : Driver → Driver) l (driverId : string) :
  (∀ d, id (g d) = id d) →
  find (fun d => String.eqb (id d) driverId)
    (map (fun d => if String.eqb (id d) driverId then g d else d) l) =
  g <$> find (fun d => String.eqb (id d) driverId) l.
Proof.
  intros Hg. induction l as [|e l IH]; simpl; [done|].
  destruct (String.eqb_spec (id e) driverId) as [He|He].
  - by rewrite Hg, He, String.eqb_refl.
  - by destruct (String.eqb_spec (id e) driverId).
Qed.


(** X12.  [verifyDocument], [assignVehicle], [unassignVehicle],
    [updateOnboardingStatus] and [uploadDocument] for one identifier
    do not change what [getDriver] returns under another one. *)
Theorem getDriver_other_driver w (driverId other : string) :
  other ≠ driverId →
  (∀ documentId st comments,
     fst (getDriver other
            (snd (verifyDocument driverId documentId st comments w))) =
     fst (getDriver other w)) ∧
  (∀ v, fst (getDriver other (snd (assignVehicle driverId v w))) =
        fst (getDriver other w)) ∧
  fst (getDriver other (snd (unassignVehicle driverId w))) =
    fst (getDriver other w) ∧
  (∀ st, fst (getDriver other (snd (updateOnboardingStatus driverId st w))) =
         fst (getDriver other w)) ∧
  (∀ document,
     fst (getDriver other
            (snd (uploadDocument clock random_id driverId (Plain document)
                    w))) =
     fst (getDriver other w)).
Proof.
  intros Hne. split_and!; intros; simpl.
  - f_equal. by apply find_other_map.
  - f_equal. by apply find_other_map.
  - f_equal. by apply find_other_map.
  - f_equal. by apply find_other_map.
  - destruct (uploadDocument_result driverId document w)
      as (w' & n & Hrun & _ & _ & _ & _ & Hall).
    rewrite Hrun. simpl. f_equal.
    revert Hall. generalize (drivers (store w')) (drivers (store w)).
    intros l' l Hall. induction Hall as [|e e' l l' He _ IH]; [done|].
    simpl. rewrite (uploaded_between_id _ _ _ _ _ _ _ He).
    destruct (String.eqb_spec (id e) other) as [Ho|Ho]; [|exact IH].
    unfold uploaded_between in He.
    destruct (String.eqb_spec (id e) driverId); [congruence|by subst].
Qed.

(** X13.  On the collection, [unassignVehicle] after [assignVehicle]
    is [unassignVehicle] alone, and of two [assignVehicle] for the same
    driver the later one wins; when no record of the driver had a
    vehicle, assigning and then unassigning gives back the collection
    of before. *)
Theorem assignVehicle_unassignVehicle w driverId v v' :
  drivers (store (snd (unassignVehicle driverId
                         (snd (assignVehicle driverId v w))))) =
    drivers (store (snd (unassignVehicle driverId w))) ∧
  drivers (store (snd (assignVehicle driverId v'
                         (snd (assignVehicle driverId v w))))) =
    drivers (store (snd (assignVehicle driverId v' w))) ∧
  ((∀ d, d ∈ drivers (store w) → id d = driverId → vehicleId d = None) →
   drivers (store (snd (unassignVehicle driverId
                          (snd (assignVehicle driverId v w))))) =
     drivers (store w)).
Proof.
  assert (Hcomp : ∀ o o' l,
            map (fun d => if String.eqb (id d) driverId
                          then with_vehicleId d o' else d)
              (map (fun d => if String.eqb (id d) driverId
                             then with_vehicleId d o else d) l) =
            map (fun d => if String.eqb (id d) driverId
                          then with_vehicleId d o' else d) l).
  { intros o o' l. rewrite map_map. apply map_ext. intros d.
    destruct (String.eqb (id d) driverId) eqn:E; simpl; by rewrite E. }
  simpl. split_and!; try apply Hcomp.
  intros Hnone. rewrite Hcomp.
  induction (drivers (store w)) as [|e l IH]; [done|]. simpl. f_equal.
  - destruct (String.eqb_spec (id e) driverId) as [He|He]; [|done].
    assert (Hv : vehicleId e = None) by (apply Hnone; [constructor|done]).
    destruct e. simpl in *. by subst.
  - apply IH. intros d Hd. apply Hnone. by constructor.
Qed.

(** X14.  Nothing keeps a vehicle to one driver: when [getDriver]
    finds records under two different identifiers, assigning the same
    vehicle to the one and then to the other leaves both with that
    vehicle. *)
Theorem assignVehicle_not_exclusive w (id1 id2 : string) v d1 d2 :
  id1 ≠ id2 →
  getDriver id1 w = (Returned (Some d1), w) →
  getDriver id2 w = (Returned (Some d2), w) →
  ∃ w' w'',
    assignVehicle id1 v w = (Returned tt, w') ∧
    assignVehicle id2 v w' = (Returned tt, w'') ∧
    getDriver id1 w'' = (Returned (Some (with_vehicleId d1 (Some v))), w'') ∧
    getDriver id2 w'' = (Returned (Some (with_vehicleId d2 (Some v))), w'').
Proof.
  intros Hne. rewrite !getDriver_run. intros [= H1] [= H2].
  eexists _, _. split; [reflexivity|]. split; [reflexivity|].
  rewrite !getDriver_run. simpl. split; f_equal.
  - by rewrite find_other_map, find_same_map, H1.
  - by rewrite find_same_map, find_other_map, H2.
Qed.

(** *** Updates *)


(** The outcome of [updateDriver], record by record. *)
Lemma updateDriver_result id0 updates w :
  ∃ l' upd' n w1,
    w1 = publish (set_loading true (store w)) w ∧
    update_each clock id0 updates (drivers (store w)) None w1 =
      (Returned (l', upd'), tick n w1) ∧
    Forall2 (updated_between clock id0 updates (dates w) (n + dates w))
      (drivers (store w)) l' ∧
    ((∀ d, d ∈ drivers (store w) → id d ≠ id0) → upd' = None) ∧
    updateDriver clock id0 updates w =
      match upd' with
      | Some r =>
          (Returned r,
           publish (set_drivers_loading l' false (store w1)) (tick n w1))
      | None =>
          (Thrown "Driver not found",
           publish
             (set_error_loading "Failed to update driver" false
                (set_drivers_loading l' false (store w1)))
             (publish (set_drivers_loading l' false (store w1)) (tick n w1)))
      end.
Proof.
  destruct (update_each_run clock id0 updates (drivers (store w)) None
              (publish (set_loading true (store w)) w))
    as (l' & upd' & n & Hrun & Hall & Hnone & _).
  exists l', upd', n, (publish (set_loading true (store w)) w).
  split; [done|]. split; [exact Hrun|]. split; [exact Hall|].
  split; [intros Habsent; by apply Hnone, Forall_forall|].
  rewrite (updateDriver_run _ _ _ _ _ _ _ Hrun). by destruct upd'.
Qed.



(** *** Sequences of calls *)

(** What one call does to the loading flag and to the error field. *)
Lemma after_call_status c w :
  (loading (store w) = false →
   loading (store (after_call clock random_id c w)) = false) ∧
  (error (store (after_call clock random_id c w)) = error (store w) ∨
   error (store (after_call clock random_id c w)) =
     Some "Failed to add driver" ∨
   error (store (after_call clock random_id c w)) =
     Some "Failed to update driver" ∨
   error (store (after_call clock random_id c w)) =
     Some "Failed to upload document").
Proof.
  destruct c as [[driverData|message]|id0 updates
                |driverId [document|message]|id0
                |driverId documentId st comments|driverId v|driverId
                |driverId st]; unfold after_call.
  - rewrite addDriver_run. simpl. split; [done|by left].
  - rewrite addDriver_throwing_run. simpl. split; [done|]. right. by left.
  - destruct (updateDriver_result id0 updates w)
      as (l' & upd' & n & w1 & -> & _ & _ & _ & ->).
    destruct upd'; simpl; split; auto.
  - destruct (uploadDocument_result driverId document w)
      as (w' & n & -> & _ & _ & Hl & He & _).
    simpl. split; [done|by left].
  - destruct (uploadDocument_throwing_run clock random_id driverId message w)
      as [Ha Hp].
    destruct (decide (Exists (fun d => id d = driverId) (drivers (store w))))
      as [HE|HE].
    + apply Exists_exists in HE. rewrite (Hp HE). simpl.
      split; [done|]. do 3 right. done.
    + apply not_Exists_Forall in HE; [|intros ?; apply _].
      rewrite Forall_forall in HE. rewrite (Ha HE). simpl.
      split; [done|by left].
  - simpl. split; [done|by left].
  - simpl. split; [done|by left].
  - simpl. split; [done|by left].
  - simpl. split; [done|by left].
  - simpl. split; [done|by left].
Qed.

(** X17.  After any sequence of calls on the seeded store, with drafts
    that may throw when they are read, the loading flag is lowered and
    the error field is empty or holds the message of one of the three
    [catch] clauses. *)
Theorem calls_status cs :
  loading (store (after_calls clock random_id cs initialWorld)) = false ∧
  (error (store (after_calls clock random_id cs initialWorld)) = None ∨
   error (store (after_calls clock random_id cs initialWorld)) =
     Some "Failed to add driver" ∨
   error (store (after_calls clock random_id cs initialWorld)) =
     Some "Failed to update driver" ∨
   error (store (after_calls clock random_id cs initialWorld)) =
     Some "Failed to upload document").
Proof.
  assert (H : ∀ w,
            loading (store w) = false ∧
            (error (store w) = None ∨
             error (store w) = Some "Failed to add driver" ∨
             error (store w) = Some "Failed to update driver" ∨
             error (store w) = Some "Failed to upload document") →
            loading (store (after_calls clock random_id cs w)) = false ∧
            (error (store (after_calls clock random_id cs w)) = None ∨
             error (store (after_calls clock random_id cs w)) =
               Some "Failed to add driver" ∨
             error (store (after_calls clock random_id cs w)) =
               Some "Failed to update driver" ∨
             error (store (after_calls clock random_id cs w)) =
               Some "Failed to upload document")).
  { induction cs as [|c cs IH]; intros w [Hl He]; [done|].
    simpl. apply IH.
    destruct (after_call_status c w) as [Hl' He'].
    split; [by apply Hl'|].
    destruct He' as [He'|He']; [by rewrite He'|by right]. }
  apply H. split; [done|by left].
Qed.

(** X18.  No call clears the error field: once it holds a message, it
    holds that message or the message of one of the three [catch]
    clauses after any sequence of calls. *)
Theorem error_never_cleared cs w e :
  error (store w) = Some e →
  error (store (after_calls clock random_id cs w)) = Some e ∨
  error (store (after_calls clock random_id cs w)) =
    Some "Failed to add driver" ∨
  error (store (after_calls clock random_id cs w)) =
    Some "Failed to update driver" ∨
  error (store (after_calls clock random_id cs w)) =
    Some "Failed to upload document".
Proof.
  assert (H : ∀ w,
            error (store w) = Some e ∨
            error (store w) = Some "Failed to add driver" ∨
            error (store w) = Some "Failed to update driver" ∨
            error (store w) = Some "Failed to upload document" →
            error (store (after_calls clock random_id cs w)) = Some e ∨
            error (store (after_calls clock random_id cs w)) =
              Some "Failed to add driver" ∨
            error (store (after_calls clock random_id cs w)) =
              Some "Failed to update driver" ∨
            error (store (after_calls clock random_id cs w)) =
              Some "Failed to upload document").
  { induction cs as [|c cs IH]; intros w0 He; [done|].
    simpl. apply IH.
    destruct (after_call_status c w0) as [_ [He'|He']];
      [by rewrite He'|by right]. }
  intros He. apply H. by left.
Qed.

(** *** Unknown drivers and unchecked transitions *)

Lemma map_absent (g : Driver → Driver) l (driverId : string) :
  (∀ d, d ∈ l → id d ≠ driverId) →
  map (fun d => if String.eqb (id d) driverId then g d else d) l = l.
Proof.
  intros H. induction l as [|e l IH]; [done|]. simpl. f_equal.
  - destruct (String.eqb_spec (id e) driverId) as [He|He]; [|done].
    destruct (H e); [constructor|done].
  - apply IH. intros d Hd. apply H. by constructor.
Qed.

(** X19.  When no record has the identifier, [verifyDocument],
    [assignVehicle], [unassignVehicle] and [updateOnboardingStatus]
    return without an error and leave the collection and the error
    field as they were. *)
Theorem unknown_driver_ignored w driverId :
  (∀ d, d ∈ drivers (store w) → id d ≠ driverId) →
  (∀ documentId st comments, ∃ w',
     verifyDocument driverId documentId st comments w = (Returned tt, w') ∧
     drivers (store w') = drivers (store w) ∧
     error (store w') = error (store w)) ∧
  (∀ v, ∃ w',
     assignVehicle driverId v w = (Returned tt, w') ∧
     drivers (store w') = drivers (store w) ∧
     error (store w') = error (store w)) ∧
  (∃ w',
     unassignVehicle driverId w = (Returned tt, w') ∧
     drivers (store w') = drivers (store w) ∧
     error (store w') = error (store w)) ∧
  (∀ st, ∃ w',
     updateOnboardingStatus driverId st w = (Returned tt, w') ∧
     drivers (store w') = drivers (store w) ∧
     error (store w') = error (store w)).
Proof.
  intros Habsent.
  split_and!; intros; eexists; (split; [reflexivity|]); simpl;
    (split; [by apply map_absent|done]).
Qed.


End Further.

(** ** The further properties on the seeded store *)

Lemma nobody_404 : ∀ d, d ∈ drivers (store initialWorld) → id d ≠ "404".
Proof. intros d Hd. rewrite (only_johnDoe d Hd). discriminate. Defined.

Lemma deleteDriver_absent_witness :
  (∀ d, d ∈ drivers (store initialWorld) → id d ≠ "404") ∧
  ∃ w',
    deleteDriver "404" initialWorld = (Returned tt, w') ∧
    drivers (store w') = [johnDoe].
Proof.
  split; [exact nobody_404|].
  destruct (deleteDriver_absent initialWorld "404" nobody_404)
    as (w' & Hrun & Hsame & _).
  exists w'. by split.
Defined.

Lemma getDriver_leftmost_witness :
  ∃ o,
    getDriver "1" initialWorld = (Returned o, initialWorld) ∧
    o = Some johnDoe ∧
    id johnDoe = "1" ∧
    ∃ i, drivers (store initialWorld) !! i = Some johnDoe.
Proof.
  destruct (getDriver_leftmost initialWorld "1") as (o & Hrun & _ & Hsome).
  exists o. split; [exact Hrun|].
  rewrite getDriver_run in Hrun. injection Hrun as Ho.
  split; [by rewrite <- Ho|].
  destruct (Hsome johnDoe) as (Hid & i & Hi & _); [by rewrite <- Ho|].
  split; [exact Hid|]. by exists i.
Defined.

Lemma getDriver_after_addDriver_witness :
  (∀ d, d ∈ drivers (store initialWorld) → id d ≠ "i") ∧
  ∃ r w',
    addDriver noon always_half (Plain jane) initialWorld = (Returned r, w') ∧
    id r = "i" ∧
    getDriver "i" w' = (Returned (Some r), w').
Proof.
  assert (Hfresh : ∀ d, d ∈ drivers (store initialWorld) → id d ≠ "i").
  { intros d Hd. rewrite (only_johnDoe d Hd). discriminate. }
  split; [exact Hfresh|].
  destruct (getDriver_after_addDriver noon always_half jane initialWorld)
    as (r & w' & Hrun & Hnew & _).
  exists r, w'. split; [exact Hrun|].
  assert (Hid : id r = "i").
  { rewrite addDriver_run in Hrun. by injection Hrun as <- _. }
  split; [exact Hid|]. rewrite <- Hid at 1. apply Hnew. by rewrite Hid.
Defined.

Lemma deleteDriver_after_addDriver_witness :
  (∀ d, d ∈ drivers (store initialWorld) → id d ≠ "i") ∧
  ∃ r w' w'',
    addDriver noon always_half (Plain jane) initialWorld = (Returned r, w') ∧
    id r = "i" ∧
    deleteDriver "i" w' = (Returned tt, w'') ∧
    drivers (store w'') = drivers (store initialWorld).
Proof.
  assert (Hfresh : ∀ d, d ∈ drivers (store initialWorld) → id d ≠ "i").
  { intros d Hd. rewrite (only_johnDoe d Hd). discriminate. }
  split; [exact Hfresh|].
  destruct (deleteDriver_after_addDriver noon always_half jane initialWorld)
    as (r & w' & w'' & Hrun & Hdel & _ & Hback).
  exists r, w', w''. split; [exact Hrun|].
  assert (Hid : id r = "i").
  { rewrite addDriver_run in Hrun. by injection Hrun as <- _. }
  rewrite Hid in Hdel, Hback. by split_and!; [|exact Hdel|apply Hback].
Defined.


Lemma verifyDocument_by_document_id_witness :
  getDriver "1" initialWorld = (Returned (Some johnDoe), initialWorld) ∧
  always_half (randoms initialWorld) ≠ dd_type license_draft ∧
  ∃ w' w'' d'',
    uploadDocument noon always_half "1" (Plain license_draft) initialWorld =
      (Returned tt, w') ∧
    verifyDocument "1" "i" "verified" None w' = (Returned tt, w'') ∧
    getDriver "1" w'' = (Returned (Some d''), w'') ∧
    documents d'' !! "license" = Some (pending_document license_draft "i").
Proof.
  assert (Hne : always_half (randoms initialWorld) ≠ dd_type license_draft)
    by discriminate.
  split; [reflexivity|]. split; [exact Hne|].
  destruct (verifyDocument_by_document_id noon always_half initialWorld "1"
              license_draft "verified" None johnDoe eq_refl Hne)
    as (w' & w'' & d'' & l & Hrun & Hverify & Hget & Hdoc & _).
  by exists w', w'', d''.
Defined.

Lemma verifyDocument_known_key_witness :
  (drivers (store initialWorld) !! 0 = Some johnDoe ∧ id johnDoe = "1" ∧
   documents johnDoe !! "license" =
     Some (mkDocument (Some "doc1") (Some "license") (Some "DL123456")
             (Some "2025-12-31") (Some "2020-01-01") (Some "verified")
             (Some "https://example.com/license.pdf") None)) ∧
  ∃ w' d' doc',
    verifyDocument "1" "license" "rejected" (Some "expired") initialWorld =
      (Returned tt, w') ∧
    drivers (store w') !! 0 = Some d' ∧
    documents d' !! "license" = Some doc' ∧
    doc_status doc' = Some "rejected" ∧
    doc_comments doc' = Some "expired" ∧
    doc_id doc' = Some "doc1" ∧
    dom (documents d') = dom (documents johnDoe).
Proof.
  split; [by split_and!|].
  destruct (verifyDocument_known_key initialWorld "1" "license" "rejected"
              (Some "expired"))
    as (w' & Hrun & Hnew).
  destruct (Hnew 0 johnDoe _ eq_refl eq_refl eq_refl)
    as (d' & doc' & Hi & Hdoc & Hst & Hc & Hid & _ & _ & _ & _ & _ & Hdom & _).
  by exists w', d', doc'.
Defined.

Lemma verifyDocument_by_type_witness :
  getDriver "1" initialWorld = (Returned (Some johnDoe), initialWorld) ∧
  ∃ w' w'' d'' doc,
    uploadDocument noon always_half "1" (Plain license_draft) initialWorld =
      (Returned tt, w') ∧
    verifyDocument "1" "license" "verified" (Some "ok") w' =
      (Returned tt, w'') ∧
    getDriver "1" w'' = (Returned (Some d''), w'') ∧
    documents d'' !! "license" = Some doc ∧
    doc_id doc = Some "i" ∧
    doc_status doc = Some "verified" ∧
    ¬ has_pending d''.
Proof.
  split; [reflexivity|].
  destruct (verifyDocument_by_type noon always_half initialWorld "1"
              license_draft "verified" (Some "ok") johnDoe eq_refl)
    as (w' & w'' & d'' & doc & Hrun & Hverify & Hget & Hdoc & Hid & _ & Hst
        & _ & _ & Hnone).
  exists w', w'', d'', doc. split_and!; try done.
  apply Hnone; [discriminate|].
  intros key doc0 Hkey Hlook. unfold johnDoe in Hlook. simpl in Hlook.
  change (dd_type license_draft) with "license" in Hkey.
  rewrite lookup_insert_ne in Hlook by done.
  destruct (decide (key = "permit")) as [->|Hp].
  - rewrite lookup_insert_eq in Hlook. injection Hlook as <-. discriminate.
  - rewrite lookup_insert_ne, lookup_empty in Hlook by done. discriminate.
Defined.


Lemma getDriver_other_driver_witness :
  "1" ≠ "i" ∧
  fst (getDriver "1"
         (snd (assignVehicle "i" "V9"
                 (snd (addDriver noon always_half (Plain jane) initialWorld))))) =
  Returned (Some johnDoe).
Proof.
  assert (Hne : "1" ≠ "i") by discriminate.
  split; [exact Hne|].
  destruct (getDriver_other_driver noon always_half
              (snd (addDriver noon always_half (Plain jane) initialWorld))
              "i" "1" Hne)
    as (_ & Hassign & _).
  rewrite (Hassign "V9"). reflexivity.
Defined.

Lemma assignVehicle_unassignVehicle_witness :
  (∀ d, d ∈ drivers (store initialWorld) → id d = "1" → vehicleId d = None) ∧
  drivers (store (snd (unassignVehicle "1"
                         (snd (assignVehicle "1" "V9" initialWorld))))) =
    drivers (store initialWorld).
Proof.
  assert (Hnone : ∀ d, d ∈ drivers (store initialWorld) → id d = "1" →
                       vehicleId d = None).
  { intros d Hd _. by rewrite (only_johnDoe d Hd). }
  split; [exact Hnone|].
  destruct (assignVehicle_unassignVehicle initialWorld "1" "V9" "V9")
    as (_ & _ & Hback).
  exact (Hback Hnone).
Defined.

Lemma assignVehicle_not_exclusive_witness :
  "1" ≠ "i" ∧
  ∃ w d2 w' w'',
    snd (addDriver noon always_half (Plain jane) initialWorld) = w ∧
    getDriver "1" w = (Returned (Some johnDoe), w) ∧
    getDriver "i" w = (Returned (Some d2), w) ∧
    assignVehicle "1" "V9" w = (Returned tt, w') ∧
    assignVehicle "i" "V9" w' = (Returned tt, w'') ∧
    getDriver "1" w'' =
      (Returned (Some (with_vehicleId johnDoe (Some "V9"))), w'') ∧
    getDriver "i" w'' = (Returned (Some (with_vehicleId d2 (Some "V9"))), w'').
Proof.
  assert (Hne : "1" ≠ "i") by discriminate.
  split; [exact Hne|].
  destruct (assignVehicle_not_exclusive
              (snd (addDriver noon always_half (Plain jane) initialWorld))
              "1" "i" "V9" johnDoe
              (created_driver noon always_half jane initialWorld)
              Hne eq_refl eq_refl)
    as (w' & w'' & H1 & H2 & H3 & H4).
  eexists _, _, w', w''. split; [reflexivity|].
  split; [reflexivity|]. split; [reflexivity|]. by split_and!.
Defined.



Lemma error_never_cleared_witness :
  ∃ w,
    snd (updateDriver noon "404" no_updates initialWorld) = w ∧
    error (store w) = Some "Failed to update driver" ∧
    error (store (after_calls noon always_half
                    [AddDriver (Plain jane); DeleteDriver "1"] w)) =
      Some "Failed to update driver" ∧
    error (store (after_calls noon always_half
                    [AddDriver (Throwing "boom"); DeleteDriver "1"] w)) =
      Some "Failed to add driver".
Proof.
  eexists. split; [reflexivity|]. split; [reflexivity|]. split.
  - destruct (error_never_cleared noon always_half
                [AddDriver (Plain jane); DeleteDriver "1"]
                (snd (updateDriver noon "404" no_updates initialWorld))
                "Failed to update driver" eq_refl)
      as [H|[H|[H|H]]]; try exact H; vm_compute in H; discriminate H.
  - destruct (error_never_cleared noon always_half
                [AddDriver (Throwing "boom"); DeleteDriver "1"]
                (snd (updateDriver noon "404" no_updates initialWorld))
                "Failed to update driver" eq_refl)
      as [H|[H|[H|H]]]; try exact H; vm_compute in H; discriminate H.
Defined.

Lemma unknown_driver_ignored_witness :
  (∀ d, d ∈ drivers (store initialWorld) → id d ≠ "404") ∧
  ∃ w',
    assignVehicle "404" "V9" initialWorld = (Returned tt, w') ∧
    drivers (store w') = [johnDoe] ∧
    error (store w') = None.
Proof.
  split; [exact nobody_404|].
  destruct (unknown_driver_ignored initialWorld "404" nobody_404)
    as (_ & Hassign & _).
  exact (Hassign "V9").
Defined.

